(** * Alepha: a shallow embedding of the utility headers and their properties

    The development follows the four source units of the repository:

    - [string_algorithms]  : [parseRange] of string_algorithms.h;
    - [exceptions]         : the exception grades and tags of Exception.h,
                             as a class table with C++ [dynamic_cast];
    - [table_test]         : [TableTest::Cases::operator()] of the test harness;
    - [console]            : the terminal-mode stack and [getScreenSize] of
                             the console helper.

    Every module gives its definitions first and its theorems after them. *)

From Stdlib Require Import ZArith List String Ascii Bool Lia Arith.
From Stdlib Require Import Permutation.
From Stdlib Require DecimalString.
Import ListNotations.

Local Open Scope string_scope.

(* ================================================================== *)
(** * string_algorithms.h : [parseRange]                               *)
(* ================================================================== *)

Module string_algorithms.

Local Open Scope Z_scope.

(** The exceptions that can leave [parseRange]: the [std::runtime_error] it
    throws itself, [boost::bad_lexical_cast] out of [boost::lexical_cast], and
    [std::out_of_range] out of [std::vector::at]. *)
Inductive exception : Type :=
| runtime_error (what : string)
| bad_lexical_cast
| out_of_range.

(** A C++ call returns, throws, or has undefined behaviour (here: the
    overflow of a signed integer). *)
Inductive result (A : Type) : Type :=
| Return (a : A)
| Throw (e : exception)
| Undefined.

Arguments Return {A} a.
Arguments Throw {A} e.
Arguments Undefined {A}.

Definition bind {A B : Type} (m : result A) (k : A -> result B) : result B :=
  match m with
  | Return a => k a
  | Throw e => Throw e
  | Undefined => Undefined
  end.

Notation "x <- m ;; k" := (bind m (fun x => k))
  (at level 61, m at next level, right associativity).

(** An integral type [T]: its width and signedness. *)
Record Integral : Type := { bits : Z; is_signed : bool }.

Definition int : Integral := {| bits := 32; is_signed := true |}.

(** Arithmetic in [T] wraps modulo [2^bits]; a signed [T] is read in two's
    complement. *)
Definition wrap (T : Integral) (z : Z) : Z :=
  let m := 2 ^ bits T in
  if is_signed T then (z + m / 2) mod m - m / 2 else z mod m.

(** [std::vector::at]. *)
Definition at_ {A : Type} (v : list A) (i : nat) : result A :=
  match nth_error v i with
  | Some a => Return a
  | None => Throw out_of_range
  end.

(** [std::string::empty]. *)
Definition empty (s : string) : bool :=
  match s with
  | EmptyString => true
  | String _ _ => false
  end.

(** [std::vector::empty]. *)
Definition vempty {A : Type} (v : list A) : bool :=
  match v with
  | [] => true
  | _ :: _ => false
  end.

(** [std::numeric_limits< T >::max()] of a signed [T]. *)
Definition max_value (T : Integral) : Z := 2 ^ (bits T - 1) - 1.

(** [++value] on a [T].  A [T] narrower than [int] is promoted to [int],
    incremented there and converted back, which wraps (C++20, which line 1 of
    the header asserts); an unsigned [T] wraps.  For a signed [T] of the width
    of [int] or more the increment is done in [T] itself, and at the maximum
    of [T] it overflows: undefined behaviour. *)
Definition overflows (T : Integral) (value : Z) : bool :=
  is_signed T && (bits int <=? bits T) && (max_value T <=? value).

Definition increment (T : Integral) (value : Z) : result Z :=
  if overflows T value then Undefined else Return (wrap T (value + 1)).

(** [std::iota( begin( rv ), end( rv ), value )], that is
    [for( ; first != last; ++first, ++value ) *first= value;]: every slot of
    [rv] is overwritten, and the value is incremented after each store, the
    last one included. *)
Fixpoint iota (T : Integral) (rv : list Z) (value : Z) : result (list Z) :=
  match rv with
  | [] => Return []
  | _ :: rest =>
      next <- increment T value ;;
      rest' <- iota T rest next ;;
      Return (value :: rest')
  end.

Section parseRange.

(** [split] is declared in the header (line 74) and defined elsewhere;
    [boost::lexical_cast< T >] is Boost's.  Both are parameters: [None] is a
    [lexical_cast] that throws. *)
Variable split : string -> ascii -> list string.
Variable T : Integral.
Variable lexical_cast : string -> option Z.

Definition cast (s : string) : result Z :=
  match lexical_cast s with
  | Some z => Return z
  | None => Throw bad_lexical_cast
  end.

(** The message of the [std::runtime_error] of line 86. *)
Definition expected_range : exception :=
  runtime_error "Expected an integer or a range.".

(** Lines 79-98.  [rv{ high - low + 1 }] is a braced initialiser: for an
    integral [T] it selects the [std::initializer_list< T >] constructor, so
    [rv] has ONE element, whose value is [high - low + 1]. *)
Definition parseRange (s : string) : result (list Z) :=
  let tokens := split s "-"%char in
  if vempty tokens || (2 <? List.length tokens)%nat
  then Throw expected_range
  else
    single <- (if (List.length tokens =? 1)%nat then Return true
               else (t0 <- at_ tokens 0 ;; Return (empty t0))) ;;
    if (single : bool) then
      (v <- cast s ;; Return [v])
    else
      t0 <- at_ tokens 0 ;;
      low <- cast t0 ;;
      t0' <- at_ tokens 0 ;;
      high <- cast t0' ;;
      let rv := [wrap T (high - low + 1)] in
      rv' <- iota T rv low ;;
      Return rv'.

End parseRange.

(** ** Concrete stand-ins for the two parameters

    They serve to run [parseRange] on concrete strings; the theorems below
    hold for every [split] and every [lexical_cast]. *)

(** Modelled from the spec: the body of [split] is not part of the sources at
    hand; the spec lists "string splitting" among the string algorithms.  The
    text is cut at every occurrence of [token]; empty fields are kept. *)
Fixpoint split_model (s : string) (token : ascii) : list string :=
  match s with
  | EmptyString => [EmptyString]
  | String c rest =>
      if Ascii.eqb c token then EmptyString :: split_model rest token
      else match split_model rest token with
           | [] => [String c EmptyString]
           | field :: fields => String c field :: fields
           end
  end.

Definition digit (c : ascii) : option Z :=
  let n := Z.of_nat (nat_of_ascii c) in
  if (48 <=? n) && (n <=? 57) then Some (n - 48) else None.

Fixpoint digits (acc : Z) (s : string) : option Z :=
  match s with
  | EmptyString => Some acc
  | String c rest =>
      match digit c with
      | Some d => digits (10 * acc + d) rest
      | None => None
      end
  end.

(** Modelled from the spec: [boost::lexical_cast< T >] on a decimal numeral,
    with an optional sign for a signed [T]; anything else, and a value that
    [T] cannot hold, is a [bad_lexical_cast]. *)
Definition lexical_cast_model (T : Integral) (s : string) : option Z :=
  let in_range z := if Z.eqb (wrap T z) z then Some z else None in
  match s with
  | EmptyString => None
  | String "-"%char (String c rest) =>
      if is_signed T then
        match digits 0 (String c rest) with
        | Some z => in_range (- z)
        | None => None
        end
      else None
  | String c rest =>
      match digits 0 (String c rest) with
      | Some z => in_range z
      | None => None
      end
  end.

(** ** Theorems *)

(** The increment of [std::iota] on a vector of one element: the value is
    stored, and the increment that follows the store is executed too. *)
Lemma iota_one T x value :
  iota T [x] value = if overflows T value then Undefined else Return [value].
Proof.
  simpl. unfold increment. destruct (overflows T value); reflexivity.
Qed.

(** No type as wide as [int] has a maximum as small as [3]. *)
Lemma overflows_3 T : overflows T 3 = false.
Proof.
  unfold overflows, max_value.
  destruct (is_signed T); [|reflexivity].
  destruct (bits int <=? bits T) eqn:E; [|reflexivity].
  apply Z.leb_le in E. simpl in E. simpl.
  apply Z.leb_gt.
  assert (H : 2 ^ 31 <= 2 ^ (bits T - 1)) by (apply Z.pow_le_mono_r; lia).
  change (2 ^ 31) with 2147483648 in H. lia.
Qed.

(** Whatever [split] and [lexical_cast] do, a call of [parseRange] that
    returns hands back exactly one value. *)
Lemma parseRange_singleton split T lexical_cast s rv :
  parseRange split T lexical_cast s = Return rv -> List.length rv = 1%nat.
Proof.
  unfold parseRange.
  set (tokens := split s "-"%char).
  destruct (vempty tokens || (2 <? List.length tokens)%nat); [discriminate|].
  destruct (List.length tokens =? 1)%nat; simpl.
  - unfold cast. destruct (lexical_cast s); simpl; [|discriminate].
    intros H; inversion H; reflexivity.
  - destruct (at_ tokens 0) as [t0|e|]; simpl; [|discriminate|discriminate].
    destruct (empty t0); simpl.
    + unfold cast. destruct (lexical_cast s); simpl; [|discriminate].
      intros H; inversion H; reflexivity.
    + unfold cast. destruct (lexical_cast t0); simpl; [|discriminate].
      unfold increment. destruct (overflows T z); simpl; [discriminate|].
      intros H; inversion H; reflexivity.
Qed.

(** C1 (the code at the failing input).  When [split] cuts "3-7" into "3" and
    "7" and [lexical_cast] reads the two numerals, [parseRange( "3-7" )] returns
    the one-element vector [3], not [3, 4, 5, 6, 7]: [high] is read from
    [tokens.at( 0 )] like [low], and [rv{ ... }] builds a vector of one
    element. *)
Theorem parseRange_3_7 split T lexical_cast :
  split "3-7" "-"%char = ["3"; "7"] ->
  lexical_cast "3" = Some 3 ->
  lexical_cast "7" = Some 7 ->
  parseRange split T lexical_cast "3-7" = Return [3]
  /\ parseRange split T lexical_cast "3-7" <> Return [3; 4; 5; 6; 7].
Proof.
  intros Hs H3 H7.
  assert (E : parseRange split T lexical_cast "3-7" = Return [3]).
  { unfold parseRange. rewrite Hs.
    cbn [vempty List.length Nat.ltb Nat.leb Nat.eqb orb at_ nth_error bind
         empty].
    unfold cast. rewrite H3. cbn [bind]. rewrite iota_one, overflows_3.
    reflexivity. }
  split; [exact E|]. rewrite E. discriminate.
Qed.

Lemma parseRange_3_7_witness :
  parseRange split_model int (lexical_cast_model int) "3-7" = Return [3]
  /\ parseRange split_model int (lexical_cast_model int) "3-7"
     <> Return [3; 4; 5; 6; 7].
Proof.
  apply (parseRange_3_7 split_model int (lexical_cast_model int));
    reflexivity.
Defined.

(** C9.  [parseRange] throws the [std::runtime_error] "Expected an integer or
    a range." exactly when [split] yields no token or more than two. *)
Theorem parseRange_runtime_error_iff split T lexical_cast s :
  parseRange split T lexical_cast s
    = Throw (runtime_error "Expected an integer or a range.")
  <-> (List.length (split s "-"%char) = 0
       \/ 2 < List.length (split s "-"%char))%nat.
Proof.
  unfold parseRange.
  remember (split s "-"%char) as tokens eqn:Etok.
  destruct tokens as [|t0 [|t1 [|t2 rest]]]; simpl.
  - split; [intros _; left; reflexivity | reflexivity].
  - unfold cast. split.
    + destruct (lexical_cast s); simpl; discriminate.
    + intros [H|H]; [discriminate | lia].
  - unfold cast, increment. split.
    + destruct (empty t0); simpl.
      * destruct (lexical_cast s); simpl; discriminate.
      * destruct (lexical_cast t0) as [v|]; simpl; [|discriminate].
        destruct (overflows T v); simpl; discriminate.
    + intros [H|H]; [discriminate | lia].
  - split; [intros _; right; lia | reflexivity].
Qed.

(** ** Further properties of [parseRange] *)

(** With two tokens of which the first is not empty, the first token is read
    (twice) and the second is not. *)
Lemma parseRange_two_tokens split T lexical_cast s t0 t1 :
  split s "-"%char = [t0; t1] ->
  empty t0 = false ->
  parseRange split T lexical_cast s
  = match lexical_cast t0 with
    | Some v => if overflows T v then Undefined else Return [v]
    | None => Throw bad_lexical_cast
    end.
Proof.
  intros Hs He. unfold parseRange. rewrite Hs. simpl. rewrite He. simpl.
  unfold cast, increment. destruct (lexical_cast t0) as [v|]; simpl;
    [|reflexivity].
  destruct (overflows T v); reflexivity.
Qed.

(** X1.  [parseRange] ends in one of four ways, whatever the text: with the
    [std::runtime_error] of line 86, with a [bad_lexical_cast], with a vector
    of exactly one value, or in undefined behaviour.  The last happens in one
    case only: two tokens, the first not empty and read as a value at which
    the increment of [std::iota] overflows.  It never leaves with
    [std::out_of_range] (both calls of [tokens.at( 0 )] are guarded by the
    size test), and never returns a range of two or more values. *)
Theorem parseRange_outcomes split T lexical_cast s :
  parseRange split T lexical_cast s
  = Throw (runtime_error "Expected an integer or a range.")
  \/ parseRange split T lexical_cast s = Throw bad_lexical_cast
  \/ (exists v, parseRange split T lexical_cast s = Return [v])
  \/ (parseRange split T lexical_cast s = Undefined
      /\ exists t0 t1 v,
           split s "-"%char = [t0; t1] /\ empty t0 = false
           /\ lexical_cast t0 = Some v /\ overflows T v = true).
Proof.
  unfold parseRange.
  destruct (split s "-"%char) as [|t0 [|t1 [|t2 rest]]]; simpl;
    try (left; reflexivity); unfold cast.
  - destruct (lexical_cast s); simpl; eauto.
  - destruct (empty t0) eqn:He; simpl.
    + destruct (lexical_cast s); simpl; eauto.
    + destruct (lexical_cast t0) as [v|] eqn:Ev; simpl; [|eauto].
      unfold increment. destruct (overflows T v) eqn:Eo; simpl.
      * right; right; right. split; [reflexivity|].
        exists t0, t1, v. repeat split; assumption.
      * right; right; left. exists v. reflexivity.
Qed.

(** X2.  With one token, or with two of which the first is empty (a leading
    minus sign), the whole text goes to [lexical_cast]: the result is its
    value alone, or its [bad_lexical_cast]. *)
Theorem parseRange_whole_text split T lexical_cast s :
  (List.length (split s "-"%char) = 1%nat
   \/ exists t1, split s "-"%char = [EmptyString; t1]) ->
  parseRange split T lexical_cast s
  = match lexical_cast s with
    | Some v => Return [v]
    | None => Throw bad_lexical_cast
    end.
Proof.
  unfold parseRange. intros [H|[t1 H]].
  - destruct (split s "-"%char) as [|t0 [|t1 rest]]; try discriminate.
    simpl. unfold cast. destruct (lexical_cast s); reflexivity.
  - rewrite H. simpl. unfold cast. destruct (lexical_cast s); reflexivity.
Qed.

Lemma parseRange_whole_text_witness :
  parseRange split_model int (lexical_cast_model int) "-5"
  = match lexical_cast_model int "-5" with
    | Some v => Return [v]
    | None => Throw bad_lexical_cast
    end.
Proof.
  apply (parseRange_whole_text split_model int (lexical_cast_model int) "-5").
  right. exists "5". reflexivity.
Defined.

(** X3.  With two tokens of which the first is not empty, only the first is
    read, and the second token has no part in the result, numeral or not:
    the call leaves with the [bad_lexical_cast] of the first token, or
    returns the value of the first token alone; when that value is the
    maximum of a signed [T] of the width of [int] or more, the increment that
    [std::iota] executes after its last store overflows and the behaviour is
    undefined. *)
Theorem parseRange_upper_bound_unread split T lexical_cast s t0 t1 :
  split s "-"%char = [t0; t1] ->
  empty t0 = false ->
  parseRange split T lexical_cast s
  = match lexical_cast t0 with
    | Some v => if overflows T v then Undefined else Return [v]
    | None => Throw bad_lexical_cast
    end
  /\ (forall v, lexical_cast t0 = Some v -> v < max_value T ->
      parseRange split T lexical_cast s = Return [v])
  /\ (forall v, lexical_cast t0 = Some v -> is_signed T = false ->
      parseRange split T lexical_cast s = Return [v]).
Proof.
  intros Hs He.
  rewrite (parseRange_two_tokens split T lexical_cast s t0 t1 Hs He).
  split; [reflexivity|]. split; intros v Hv H; rewrite Hv.
  - replace (overflows T v) with false; [reflexivity|].
    unfold overflows. symmetry.
    apply andb_false_intro2. apply Z.leb_gt. exact H.
  - unfold overflows. rewrite H. reflexivity.
Qed.

Lemma parseRange_upper_bound_unread_witness :
  parseRange split_model int (lexical_cast_model int) "3-x"
  = match lexical_cast_model int "3" with
    | Some v => if overflows int v then Undefined else Return [v]
    | None => Throw bad_lexical_cast
    end
  /\ (forall v, lexical_cast_model int "3" = Some v -> v < max_value int ->
      parseRange split_model int (lexical_cast_model int) "3-x" = Return [v])
  /\ (forall v, lexical_cast_model int "3" = Some v -> is_signed int = false ->
      parseRange split_model int (lexical_cast_model int) "3-x" = Return [v]).
Proof.
  apply (parseRange_upper_bound_unread split_model int
           (lexical_cast_model int) "3-x" "3" "x"); reflexivity.
Defined.

(** At the maximum of [int] the first token is still the only one read, and
    the increment after the store overflows. *)
Example parseRange_at_the_maximum :
  parseRange split_model int (lexical_cast_model int) "2147483647-5"
  = Undefined
  /\ parseRange split_model int (lexical_cast_model int) "2147483646-5"
     = Return [2147483646].
Proof. split; reflexivity. Qed.

End string_algorithms.

(* ================================================================== *)
(** * Exception.h : grades and tags                                    *)
(* ================================================================== *)

Module exceptions.

(** A tag is a caller-supplied C++ type, known by its name. *)
Definition Tag : Type := string.

(** The three local class pairs [Undergird]/[Error] of [build_exception],
    one per [if constexpr] branch that builds one. *)
Inductive Branch : Type :=
| allocation_branch
| index_out_of_range_branch
| error_branch.

(** ** The classes of the header

    One constructor per class or class template; the type aliases of the
    header ([NamedResourceError], [AnyTaggedCondition], ...) are definitions
    further down. *)
#[warnings="-register-all"]
Inductive Class : Type :=
| bases (Bases : list Class)
| synthetic_exception (unique_handle : string) (GradeType : Class)
                      (Bases : list Class)
| any_tagged_type (Exc : Class)
| tagged_type (Exc : Class) (tag : Tag)
| Exception
| Condition
| Notification
| ErrorBridgeInterface
| Error
| CriticalError
| Violation
| NamedResourceInterface
| NamedResourceStorage
| NamedResourceException
| OutOfRangeException
| IndexedRangeInformationInterface
| IndexedRangeInformationStorage
| IndexOutOfRangeException
| IndexOutOfRangeError
| IndexOutOfRangeCriticalError
| IndexOutOfRangeViolation
| AllocationAmountInterface
| AllocationAmountStorage
| AllocationException
| MessageStorage
| GenericExceptionBridge (std_exception : Class)
| Undergird (branch : Branch) (Kind : Class)
| build_exception_Error (branch : Branch) (Kind : Class)
| Thrown (Kind : Class)
| std_exception
| std_bad_alloc
| std_logic_error
| std_out_of_range.

Definition Class_eq_dec : forall C D : Class, {C = D} + {C <> D}.
Proof.
  fix IH 1. intros C D.
  decide equality;
    first [ apply string_dec
          | apply (list_eq_dec IH)
          | decide equality ].
Defined.

Definition Class_eqb (C D : Class) : bool :=
  if Class_eq_dec C D then true else false.

(** ** Base-class lists

    Every base of the header is a virtual base; only the access differs.  The
    standard library's own exception classes derive non-virtually. *)
Inductive Access : Type := public | protected | private.

Record BaseSpecifier : Type :=
  { base_virtual : bool; base_access : Access; base_class : Class }.

Definition virtual_public (C : Class) : BaseSpecifier :=
  {| base_virtual := true; base_access := public; base_class := C |}.
Definition virtual_protected (C : Class) : BaseSpecifier :=
  {| base_virtual := true; base_access := protected; base_class := C |}.
Definition virtual_private (C : Class) : BaseSpecifier :=
  {| base_virtual := true; base_access := private; base_class := C |}.
Definition nonvirtual_public (C : Class) : BaseSpecifier :=
  {| base_virtual := false; base_access := public; base_class := C |}.

(** The aliases of the header that name a [synthetic_exception]. *)
Definition NamedResourceNotification : Class :=
  synthetic_exception "named_resource_notification" Notification
    [NamedResourceException].
Definition NamedResourceError : Class :=
  synthetic_exception "named_resource_exception" Error
    [NamedResourceException].
Definition NamedResourceCriticalError : Class :=
  synthetic_exception "named_resource_error" CriticalError
    [NamedResourceException].
Definition NamedResourceViolation : Class :=
  synthetic_exception "named_resource_violation" Violation
    [NamedResourceException].
Definition OutOfRangeError : Class :=
  synthetic_exception "out_of_range_throwable" Error [OutOfRangeException].
Definition OutOfRangeCriticalError : Class :=
  synthetic_exception "out_of_range_throwable" CriticalError
    [OutOfRangeException].
Definition OutOfRangeViolation : Class :=
  synthetic_exception "out_of_range_throwable" Violation
    [OutOfRangeException].
Definition AllocationError : Class :=
  synthetic_exception "allocation_exception" Error [AllocationException].
Definition AllocationCriticalError : Class :=
  synthetic_exception "allocation_error" CriticalError [AllocationException].
Definition AllocationViolation : Class :=
  synthetic_exception "allocation_violation" Violation [AllocationException].
Definition FinishedException : Class :=
  synthetic_exception "finished_exception" Exception [].
Definition FinishedCondition : Class :=
  synthetic_exception "finished_exception" Condition [FinishedException].

(** The class in whose scope the member names [any_tagged_type] and
    [tagged_type] of [Exc] are found.  The grade classes and every
    [synthetic_exception] declare the two themselves; a class that only
    derives from a [synthetic_exception] inherits them from it. *)
Definition declaring_class (Exc : Class) : Class :=
  match Exc with
  | NamedResourceException =>
      synthetic_exception "named_resource_throwable" Exception []
  | OutOfRangeException =>
      synthetic_exception "out_of_range_throwable" Exception []
  | IndexOutOfRangeException =>
      synthetic_exception "index_out_of_range_throwable" Exception
        [OutOfRangeException]
  | IndexOutOfRangeError =>
      synthetic_exception "index_out_of_range_throwable" OutOfRangeError
        [IndexOutOfRangeException]
  | IndexOutOfRangeCriticalError =>
      synthetic_exception "index_out_of_range_throwable"
        OutOfRangeCriticalError [IndexOutOfRangeException]
  | IndexOutOfRangeViolation =>
      synthetic_exception "index_out_of_range_throwable" OutOfRangeViolation
        [IndexOutOfRangeException]
  | AllocationException =>
      synthetic_exception "allocation_throwable" Exception []
  | _ => Exc
  end.

(** [template< typename Exc > using AnyTagged= typename Exc::any_tagged_type;]
    and [template< typename Exc, typename tag > using Tagged=
    typename Exc::template tagged_type< tag >;] (lines 106-110). *)
Definition AnyTagged (Exc : Class) : Class :=
  any_tagged_type (declaring_class Exc).
Definition Tagged (Exc : Class) (tag : Tag) : Class :=
  tagged_type (declaring_class Exc) tag.

(** [create_exception] (line 103). *)
Definition create_exception := synthetic_exception.

Definition AnyTaggedException : Class := AnyTagged Exception.
Definition TaggedException (tag : Tag) : Class := Tagged Exception tag.
(** The standard exception class and the extra storage of each
    [build_exception] branch. *)
Definition branch_std (b : Branch) : Class :=
  match b with
  | allocation_branch => std_bad_alloc
  | index_out_of_range_branch => std_out_of_range
  | error_branch => std_exception
  end.

Definition branch_storage (b : Branch) : list BaseSpecifier :=
  match b with
  | allocation_branch => [virtual_protected AllocationAmountStorage]
  | index_out_of_range_branch =>
      [virtual_protected IndexedRangeInformationStorage]
  | error_branch => []
  end.

(** The base-specifier list of every class, as the header writes it. *)
Definition direct_bases (C : Class) : list BaseSpecifier :=
  match C with
  (* lines 72-73 *)
  | bases Bases => map virtual_public Bases
  (* lines 80-101 *)
  | synthetic_exception _ GradeType Bases =>
      [virtual_public (bases (GradeType :: Bases))]
  | any_tagged_type (synthetic_exception u GradeType Bases) =>
      [virtual_public
         (bases (synthetic_exception u GradeType Bases
                 :: AnyTagged GradeType :: map AnyTagged Bases))]
  | tagged_type (synthetic_exception u GradeType Bases) tag =>
      [virtual_public
         (bases (synthetic_exception u GradeType Bases
                 :: any_tagged_type (synthetic_exception u GradeType Bases)
                 :: Tagged GradeType tag
                 :: map (fun B => Tagged B tag) Bases))]
  (* lines 112-158 *)
  | Exception => []
  | any_tagged_type Exception => [virtual_public Exception]
  | tagged_type Exception _ =>
      [virtual_public Exception; virtual_public (any_tagged_type Exception)]
  (* lines 168-185 *)
  | Condition => [virtual_public Exception]
  | any_tagged_type Condition =>
      [virtual_public (bases [Condition; any_tagged_type Exception])]
  | tagged_type Condition tag =>
      [virtual_public
         (bases [any_tagged_type Condition; tagged_type Exception tag])]
  (* lines 191-208 *)
  | Notification => [virtual_public Exception]
  | any_tagged_type Notification =>
      [virtual_public (bases [Notification; any_tagged_type Exception])]
  | tagged_type Notification tag =>
      [virtual_public
         (bases [any_tagged_type Notification; tagged_type Exception tag])]
  (* lines 211-233 *)
  | ErrorBridgeInterface => []
  | Error =>
      [virtual_public (bases [Exception]);
       virtual_private ErrorBridgeInterface]
  | any_tagged_type Error =>
      [virtual_public (bases [Error; any_tagged_type Exception])]
  | tagged_type Error tag =>
      [virtual_public
         (bases [any_tagged_type Error; tagged_type Exception tag])]
  (* lines 239-256 *)
  | CriticalError => [virtual_public (bases [Exception])]
  | any_tagged_type CriticalError =>
      [virtual_public (bases [CriticalError; any_tagged_type Exception])]
  | tagged_type CriticalError tag =>
      [virtual_public
         (bases [any_tagged_type CriticalError; tagged_type Exception tag])]
  (* lines 266-288 *)
  | Violation => [virtual_public (bases [Exception])]
  | any_tagged_type Violation =>
      [virtual_public (bases [Violation; any_tagged_type Exception])]
  | tagged_type Violation tag =>
      [virtual_public
         (bases [any_tagged_type Violation; tagged_type Exception tag])]
  (* no other class declares the two member names *)
  | any_tagged_type _ => []
  | tagged_type _ _ => []
  (* lines 293-311 *)
  | NamedResourceInterface => []
  | NamedResourceStorage => [virtual_public NamedResourceInterface]
  | NamedResourceException =>
      [virtual_public
         (synthetic_exception "named_resource_throwable" Exception []);
       virtual_public NamedResourceInterface]
  (* lines 336-337 *)
  | OutOfRangeException =>
      [virtual_public
         (synthetic_exception "out_of_range_throwable" Exception [])]
  (* lines 357-403 *)
  | IndexedRangeInformationInterface => []
  | IndexedRangeInformationStorage =>
      [virtual_public IndexedRangeInformationInterface]
  | IndexOutOfRangeException =>
      [virtual_public
         (synthetic_exception "index_out_of_range_throwable" Exception
            [OutOfRangeException])]
  | IndexOutOfRangeError =>
      [virtual_public
         (synthetic_exception "index_out_of_range_throwable" OutOfRangeError
            [IndexOutOfRangeException])]
  | IndexOutOfRangeCriticalError =>
      [virtual_public
         (synthetic_exception "index_out_of_range_throwable"
            OutOfRangeCriticalError [IndexOutOfRangeException])]
  | IndexOutOfRangeViolation =>
      [virtual_public
         (synthetic_exception "index_out_of_range_throwable"
            OutOfRangeViolation [IndexOutOfRangeException])]
  (* lines 406-424 *)
  | AllocationAmountInterface => []
  | AllocationAmountStorage => [virtual_public AllocationAmountInterface]
  | AllocationException =>
      [virtual_public
         (synthetic_exception "allocation_throwable" Exception []);
       virtual_public AllocationAmountInterface]
  (* lines 444-463 *)
  | MessageStorage => [virtual_public Exception]
  | GenericExceptionBridge std =>
      [virtual_public std; virtual_public ErrorBridgeInterface;
       virtual_public Exception]
  (* lines 465-533: the local classes of [build_exception] *)
  | Undergird b Kind =>
      [virtual_public Kind;
       virtual_protected (GenericExceptionBridge (branch_std b));
       virtual_protected MessageStorage]
      ++ branch_storage b ++ [virtual_public (branch_std b)]
  | build_exception_Error b Kind =>
      [virtual_private (Undergird b Kind); virtual_public Kind;
       virtual_public (branch_std b)]
  | Thrown Kind => [virtual_public Kind; virtual_private MessageStorage]
  (* <exception>, <new>, <stdexcept> *)
  | std_exception => []
  | std_bad_alloc => [nonvirtual_public std_exception]
  | std_logic_error => [nonvirtual_public std_exception]
  | std_out_of_range => [nonvirtual_public std_logic_error]
  end.

(** ** Walking the inheritance graph

    The graph has no cycle: [rank] bounds the length of every chain of
    bases that starts at a class.  [arank Exc] and [trank Exc] bound the
    chains out of [AnyTagged Exc] and [Tagged Exc tag]. *)
Definition maxl (f : Class -> nat) (init : nat) (Cs : list Class) : nat :=
  fold_right (fun C m => Nat.max (f C) m) init Cs.

Fixpoint rank (C : Class) : nat :=
  match C with
  | bases Bases => S (maxl rank 0 Bases)
  | synthetic_exception _ GradeType Bases =>
      2 + maxl rank (rank GradeType) Bases
  | any_tagged_type Exc => arank Exc
  | tagged_type Exc _ => trank Exc
  | Exception | ErrorBridgeInterface | NamedResourceInterface
  | IndexedRangeInformationInterface | AllocationAmountInterface
  | std_exception => 0
  | Condition | Notification | NamedResourceStorage
  | IndexedRangeInformationStorage | AllocationAmountStorage
  | MessageStorage | std_bad_alloc | std_logic_error => 1
  | Error | CriticalError | Violation | std_out_of_range => 2
  | NamedResourceException | OutOfRangeException | AllocationException => 10
  | IndexOutOfRangeException => 20
  | IndexOutOfRangeError | IndexOutOfRangeCriticalError
  | IndexOutOfRangeViolation => 30
  | GenericExceptionBridge std => S (rank std)
  | Undergird _ Kind => S (Nat.max (rank Kind) 4)
  | build_exception_Error _ Kind => S (S (Nat.max (rank Kind) 4))
  | Thrown Kind => S (Nat.max (rank Kind) 1)
  end
with arank (Exc : Class) : nat :=
  match Exc with
  | Exception => 1
  | Condition | Notification | Error | CriticalError | Violation => 4
  | synthetic_exception _ GradeType Bases =>
      2 + Nat.max (2 + maxl rank (rank GradeType) Bases)
                  (maxl arank (arank GradeType) Bases)
  | NamedResourceException | OutOfRangeException | AllocationException => 10
  | IndexOutOfRangeException => 20
  | IndexOutOfRangeError | IndexOutOfRangeCriticalError
  | IndexOutOfRangeViolation => 30
  | _ => 0
  end
with trank (Exc : Class) : nat :=
  match Exc with
  | Exception => 2
  | Condition | Notification | Error | CriticalError | Violation => 6
  | synthetic_exception _ GradeType Bases =>
      2 + Nat.max
            (2 + Nat.max (2 + maxl rank (rank GradeType) Bases)
                         (maxl arank (arank GradeType) Bases))
            (maxl trank (trank GradeType) Bases)
  | NamedResourceException | OutOfRangeException | AllocationException => 10
  | IndexOutOfRangeException => 20
  | IndexOutOfRangeError | IndexOutOfRangeCriticalError
  | IndexOutOfRangeViolation => 30
  | _ => 0
  end.

(** The classes reached from [C] along base specifiers that [keep] accepts,
    [C] itself first. *)
Fixpoint ancestors (keep : BaseSpecifier -> bool) (fuel : nat) (C : Class)
  : list Class :=
  C :: match fuel with
       | O => []
       | S fuel' =>
           flat_map (fun b => ancestors keep fuel' (base_class b))
                    (filter keep (direct_bases C))
       end.

Definition any_access (b : BaseSpecifier) : bool := true.

Definition public_access (b : BaseSpecifier) : bool :=
  match base_access b with
  | public => true
  | _ => false
  end.

Definition mem (C : Class) (Cs : list Class) : bool :=
  existsb (Class_eqb C) Cs.

(** [std::is_base_of_v< Base, Derived >]: [Base] is [Derived] or a base of
    it, whatever the access. *)
Definition is_base_of (Base Derived : Class) : bool :=
  mem Base (ancestors any_access (rank Derived) Derived).

(** [Base] is [Derived] or is reached from it through public bases only. *)
Definition is_public_base_of (Base Derived : Class) : bool :=
  mem Base (ancestors public_access (rank Derived) Derived).

(** ** [dynamic_cast], [is_a], [catch]

    An object is known by its most derived class.  Each class occurs once in
    it, since the bases are virtual.  [dynamic_cast< const Target * >( v )],
    with [v] pointing at the [Static] subobject, is not null when either
    - [v] points at a public base subobject of a [Target] object, or
    - [v] points at a public base subobject of the most derived object, and
      [Target] is a public base of the most derived class. *)
Definition dynamic_cast (Static Target MostDerived : Class) : bool :=
  (is_base_of Target MostDerived && is_public_base_of Static Target)
  || (is_public_base_of Static MostDerived
      && is_public_base_of Target MostDerived).

(** [Exception::is_a< Target >()] (lines 135-140): [this] is a
    [const Exception *]. *)
Definition is_a (Target MostDerived : Class) : bool :=
  dynamic_cast Exception Target MostDerived.

(** A handler [catch( const Handler & )] takes a thrown object when
    [Handler] is its class or a public base of it. *)
Definition catches (Handler Thrown_ : Class) : bool :=
  is_public_base_of Handler Thrown_.

(** ** [build_exception] (lines 465-533)

    The class of the object that [build_exception< Kind >( message )]
    returns: the local class [Error] of the first branch whose
    [std::is_base_of_v] test holds, the local class [Thrown] otherwise.
    ([Violation] declares a copy constructor and no other (lines 280-281), so
    the header as it stands lets no object of that grade be built; the class
    is in the table all the same.) *)
Definition build_exception (Kind : Class) : Class :=
  if is_base_of AllocationError Kind
  then build_exception_Error allocation_branch Kind
  else if is_base_of IndexOutOfRangeError Kind
  then build_exception_Error index_out_of_range_branch Kind
  else if is_base_of Error Kind
  then build_exception_Error error_branch Kind
  else Thrown Kind.

(** ** [tag()] (lines 142-158)

    [Exception::any_tagged_type] declares [tag()] pure virtual;
    [Exception::tagged_type< Tag >] overrides it, [final], and returns
    [typeid( std::type_identity< Tag > )]. *)
Inductive CxxType : Type :=
| tag_type (t : Tag)
| std_type_identity (T : CxxType).

(** A [std::type_index] stands for the type it was made from; two of them
    compare equal when they stand for the same type. *)
Definition type_index : Type := CxxType.
Definition typeid (T : CxxType) : type_index := T.

(** The body of [tag()] that a class contributes, if it has one. *)
Definition tag_overrider (C : Class) : option type_index :=
  match C with
  | tagged_type Exception Tag =>
      Some (typeid (std_type_identity (tag_type Tag)))
  | _ => None
  end.

Fixpoint overriders (Cs : list Class) : list type_index :=
  match Cs with
  | [] => []
  | C :: rest =>
      match tag_overrider C with
      | Some i => i :: overriders rest
      | None => overriders rest
      end
  end.

Definition CxxType_eq_dec : forall T U : CxxType, {T = U} + {T <> U}.
Proof.
  decide equality. apply string_dec.
Defined.

(** The virtual call [tag()] on an object: the one final overrider among its
    base subobjects.  [None] when there is none or more than one, where the
    call does not compile. *)
Definition tag (MostDerived : Class) : option type_index :=
  match nodup CxxType_eq_dec
          (overriders (ancestors any_access (rank MostDerived) MostDerived))
  with
  | [i] => Some i
  | _ => None
  end.

(** The grades of the header's opening comment. *)
Definition grades : list Class :=
  [Condition; Notification; Error; CriticalError; Violation].

(** ** The inheritance relation, as a relation

    [Derives keep D B]: [B] is [D] or is reached from [D] along base
    specifiers that [keep] accepts. *)
Inductive Derives (keep : BaseSpecifier -> bool) : Class -> Class -> Prop :=
| Derives_refl (C : Class) : Derives keep C C
| Derives_step (D : Class) (b : BaseSpecifier) (B : Class) :
    In b (direct_bases D) -> keep b = true ->
    Derives keep (base_class b) B -> Derives keep D B.

(** The classes that stand for a grade: [Exception], the five grades, and
    every [synthetic_exception] whose [GradeType] is one in turn. *)
Inductive graded : Class -> Prop :=
| graded_Exception : graded Exception
| graded_grade (G : Class) : In G grades -> graded G
| graded_synthetic (u : string) (G : Class) (Bs : list Class) :
    graded G -> graded (synthetic_exception u G Bs).

(** ** Theorems: the graph walk computes the inheritance relation *)

Lemma maxl_init f init Cs : init <= maxl f init Cs.
Proof.
  induction Cs as [|C Cs IH]; simpl; lia.
Qed.

Lemma maxl_In f init Cs C : In C Cs -> f C <= maxl f init Cs.
Proof.
  induction Cs as [|C' Cs IH]; simpl; [tauto|].
  intros [->|H]; [lia|]. specialize (IH H). lia.
Qed.

Lemma maxl_map_le f g h init Cs :
  (forall C, f (h C) <= g C) ->
  maxl f 0 (map h Cs) <= maxl g init Cs.
Proof.
  intros Hle. induction Cs as [|C Cs IH]; simpl; [lia|].
  specialize (Hle C). lia.
Qed.

Lemma rank_AnyTagged Exc : rank (AnyTagged Exc) <= arank Exc.
Proof.
  destruct Exc; simpl; lia.
Qed.

Lemma rank_Tagged Exc tag : rank (Tagged Exc tag) <= trank Exc.
Proof.
  destruct Exc; simpl; lia.
Qed.

Lemma rank_synthetic_exception u G Bs :
  rank (synthetic_exception u G Bs) = 2 + maxl rank (rank G) Bs.
Proof. reflexivity. Qed.

Lemma rank_bases Bs : rank (bases Bs) = S (maxl rank 0 Bs).
Proof. reflexivity. Qed.

Lemma maxl_cons f init C Cs :
  maxl f init (C :: Cs) = Nat.max (f C) (maxl f init Cs).
Proof. reflexivity. Qed.

Lemma maxl_0_le f init Cs : maxl f 0 Cs <= maxl f init Cs.
Proof.
  induction Cs as [|C Cs IH]; simpl; lia.
Qed.

Lemma rank_any_tagged_synthetic u G Bs b :
  In b (direct_bases (any_tagged_type (synthetic_exception u G Bs))) ->
  rank (base_class b) < arank (synthetic_exception u G Bs).
Proof.
  intros [<-|[]]. unfold virtual_public, base_class.
  rewrite rank_bases, !maxl_cons, rank_synthetic_exception.
  pose proof (rank_AnyTagged G).
  pose proof (maxl_map_le rank arank AnyTagged (arank G) Bs rank_AnyTagged).
  pose proof (maxl_init arank (arank G) Bs).
  change (arank (synthetic_exception u G Bs))
    with (2 + Nat.max (2 + maxl rank (rank G) Bs)
                      (maxl arank (arank G) Bs)).
  lia.
Qed.

Lemma rank_tagged_synthetic u G Bs tag b :
  In b (direct_bases (tagged_type (synthetic_exception u G Bs) tag)) ->
  rank (base_class b) < trank (synthetic_exception u G Bs).
Proof.
  intros [<-|[]]. unfold virtual_public, base_class.
  rewrite rank_bases, !maxl_cons, rank_synthetic_exception.
  pose proof (rank_Tagged G tag).
  pose proof (maxl_map_le rank trank (fun B => Tagged B tag) (trank G) Bs
                (fun B => rank_Tagged B tag)).
  pose proof (maxl_init trank (trank G) Bs).
  change (rank (any_tagged_type (synthetic_exception u G Bs)))
    with (2 + Nat.max (2 + maxl rank (rank G) Bs)
                      (maxl arank (arank G) Bs)).
  change (trank (synthetic_exception u G Bs))
    with (2 + Nat.max
                (2 + Nat.max (2 + maxl rank (rank G) Bs)
                             (maxl arank (arank G) Bs))
                (maxl trank (trank G) Bs)).
  lia.
Qed.

Ltac rank_by_cases :=
  let H := fresh "H" in
  simpl; intros H; repeat (destruct H as [<-|H]);
  try contradiction; simpl; lia.

Lemma rank_bases_decreasing Bs b :
  In b (direct_bases (bases Bs)) -> rank (base_class b) < rank (bases Bs).
Proof.
  simpl. intros H. apply in_map_iff in H. destruct H as [B [<- HB]].
  simpl. pose proof (maxl_In rank 0 Bs B HB). lia.
Qed.

Lemma rank_synthetic_decreasing u G Bs b :
  In b (direct_bases (synthetic_exception u G Bs)) ->
  rank (base_class b) < rank (synthetic_exception u G Bs).
Proof.
  intros [<-|[]]. unfold virtual_public, base_class.
  rewrite rank_bases, maxl_cons, rank_synthetic_exception.
  pose proof (maxl_init rank (rank G) Bs).
  pose proof (maxl_0_le rank (rank G) Bs). lia.
Qed.

Lemma rank_any_tagged_decreasing Exc b :
  In b (direct_bases (any_tagged_type Exc)) ->
  rank (base_class b) < rank (any_tagged_type Exc).
Proof.
  destruct Exc; try rank_by_cases. apply rank_any_tagged_synthetic.
Qed.

Lemma rank_tagged_decreasing Exc tag b :
  In b (direct_bases (tagged_type Exc tag)) ->
  rank (base_class b) < rank (tagged_type Exc tag).
Proof.
  destruct Exc; try rank_by_cases. apply rank_tagged_synthetic.
Qed.

(** Every base of a class has a smaller rank: the inheritance graph is
    well founded. *)
Lemma rank_decreasing D b :
  In b (direct_bases D) -> rank (base_class b) < rank D.
Proof.
  destruct D;
    first [ apply rank_bases_decreasing
          | apply rank_synthetic_decreasing
          | apply rank_any_tagged_decreasing
          | apply rank_tagged_decreasing
          | rank_by_cases
          | match goal with br : Branch |- _ => destruct br end;
            rank_by_cases ].
Qed.

Lemma ancestors_sound keep fuel D B :
  In B (ancestors keep fuel D) -> Derives keep D B.
Proof.
  revert D. induction fuel as [|fuel IH]; simpl; intros D [<-|H];
    try apply Derives_refl; try contradiction.
  apply in_flat_map in H. destruct H as [b [Hb HB]].
  apply filter_In in Hb. destruct Hb as [Hin Hkeep].
  eapply Derives_step; eauto.
Qed.

Lemma ancestors_complete keep D B :
  Derives keep D B -> forall fuel, rank D <= fuel ->
  In B (ancestors keep fuel D).
Proof.
  induction 1 as [C|D b B Hin Hkeep _ IH]; intros fuel Hfuel.
  - destruct fuel; simpl; auto.
  - pose proof (rank_decreasing D b Hin) as Hlt.
    destruct fuel as [|fuel]; [lia|]. simpl. right.
    apply in_flat_map. exists b. split.
    + apply filter_In. auto.
    + apply IH. lia.
Qed.

Lemma mem_In C Cs : mem C Cs = true <-> In C Cs.
Proof.
  unfold mem, Class_eqb. rewrite existsb_exists. split.
  - intros [D [HD E]]. destruct (Class_eq_dec C D); congruence.
  - intros H. exists C. split; [exact H|].
    destruct (Class_eq_dec C C); congruence.
Qed.

(** [is_base_of] decides the inheritance relation. *)
Lemma is_base_of_Derives Base Derived :
  is_base_of Base Derived = true <-> Derives any_access Derived Base.
Proof.
  unfold is_base_of. rewrite mem_In. split.
  - apply ancestors_sound.
  - intros H. apply ancestors_complete; auto.
Qed.

Lemma is_public_base_of_Derives Base Derived :
  is_public_base_of Base Derived = true <-> Derives public_access Derived Base.
Proof.
  unfold is_public_base_of. rewrite mem_In. split.
  - apply ancestors_sound.
  - intros H. apply ancestors_complete; auto.
Qed.

Lemma Derives_trans keep D C B :
  Derives keep D C -> Derives keep C B -> Derives keep D B.
Proof.
  induction 1 as [C|D b C Hin Hkeep _ IH]; intros H; [exact H|].
  eapply Derives_step; eauto.
Qed.

Lemma Derives_any_access keep D B :
  Derives keep D B -> Derives any_access D B.
Proof.
  induction 1 as [C|D b B Hin _ _ IH];
    [apply Derives_refl | eapply Derives_step; eauto].
Qed.

Lemma is_public_base_of_is_base_of Base Derived :
  is_public_base_of Base Derived = true -> is_base_of Base Derived = true.
Proof.
  rewrite is_public_base_of_Derives, is_base_of_Derives.
  apply Derives_any_access.
Qed.

(** For a target that derives publicly from [Exception], [is_a] is the
    plain question whether the object has a base of that class. *)
Lemma is_a_is_base_of Target MostDerived :
  is_public_base_of Exception Target = true ->
  is_a Target MostDerived = is_base_of Target MostDerived.
Proof.
  intros Hpub. unfold is_a, dynamic_cast. rewrite Hpub, andb_true_r.
  destruct (is_base_of Target MostDerived) eqn:E; [reflexivity|].
  destruct (is_public_base_of Target MostDerived) eqn:E';
    [|rewrite andb_false_r; reflexivity].
  apply is_public_base_of_is_base_of in E'. congruence.
Qed.

Lemma is_a_intro Target MostDerived :
  Derives any_access MostDerived Target ->
  Derives public_access Target Exception ->
  is_a Target MostDerived = true.
Proof.
  intros HM HT. rewrite is_a_is_base_of.
  - apply is_base_of_Derives, HM.
  - apply is_public_base_of_Derives, HT.
Qed.

(** *** Paths of the grade classes *)

Ltac base_step C :=
  apply (Derives_step _ _ (virtual_public C));
  [simpl; tauto | reflexivity | cbn [base_class virtual_public]].

Lemma any_tagged_Exception_public :
  Derives public_access (any_tagged_type Exception) Exception.
Proof.
  base_step Exception. apply Derives_refl.
Qed.

Lemma tagged_Exception_public tag :
  Derives public_access (tagged_type Exception tag)
          (any_tagged_type Exception).
Proof.
  base_step (any_tagged_type Exception). apply Derives_refl.
Qed.

Lemma grade_public G :
  In G grades -> Derives public_access G Exception.
Proof.
  simpl. intros H.
  repeat (destruct H as [<-|H]); try contradiction.
  - base_step Exception. apply Derives_refl.
  - base_step Exception. apply Derives_refl.
  - base_step (bases [Exception]). base_step Exception. apply Derives_refl.
  - base_step (bases [Exception]). base_step Exception. apply Derives_refl.
  - base_step (bases [Exception]). base_step Exception. apply Derives_refl.
Qed.

Lemma any_tagged_grade_public G :
  In G grades -> Derives public_access (any_tagged_type G) G.
Proof.
  simpl. intros H.
  repeat (destruct H as [<-|H]); try contradiction;
    match goal with
    | |- Derives _ (any_tagged_type ?X) _ =>
        base_step (bases [X; any_tagged_type Exception]);
        base_step X; apply Derives_refl
    end.
Qed.

Lemma any_tagged_grade_any_tagged_Exception G :
  In G grades ->
  Derives public_access (any_tagged_type G) (any_tagged_type Exception).
Proof.
  simpl. intros H.
  repeat (destruct H as [<-|H]); try contradiction;
    match goal with
    | |- Derives _ (any_tagged_type ?X) _ =>
        base_step (bases [X; any_tagged_type Exception]);
        base_step (any_tagged_type Exception); apply Derives_refl
    end.
Qed.

Lemma tagged_grade_any_tagged G tag :
  In G grades ->
  Derives public_access (tagged_type G tag) (any_tagged_type G).
Proof.
  simpl. intros H.
  repeat (destruct H as [<-|H]); try contradiction;
    match goal with
    | |- Derives _ (tagged_type ?X _) _ =>
        base_step (bases [any_tagged_type X; tagged_type Exception tag]);
        base_step (any_tagged_type X); apply Derives_refl
    end.
Qed.

Lemma tagged_grade_tagged_Exception G tag :
  In G grades ->
  Derives public_access (tagged_type G tag) (tagged_type Exception tag).
Proof.
  simpl. intros H.
  repeat (destruct H as [<-|H]); try contradiction;
    match goal with
    | |- Derives _ (tagged_type ?X _) _ =>
        base_step (bases [any_tagged_type X; tagged_type Exception tag]);
        base_step (tagged_type Exception tag); apply Derives_refl
    end.
Qed.

(** *** Paths of the graded classes *)

Lemma graded_declaring_class E : graded E -> declaring_class E = E.
Proof.
  intros [|G HG|u G Bs _]; try reflexivity.
  simpl in HG. repeat (destruct HG as [<-|HG]); try contradiction; reflexivity.
Qed.

Lemma graded_public E : graded E -> Derives public_access E Exception.
Proof.
  induction 1 as [|G HG|u G Bs _ IH].
  - apply Derives_refl.
  - apply grade_public, HG.
  - base_step (bases (G :: Bs)). base_step G. exact IH.
Qed.

Lemma graded_any_tagged E :
  graded E -> Derives public_access (any_tagged_type E) E.
Proof.
  intros [|G HG|u G Bs _].
  - apply any_tagged_Exception_public.
  - apply any_tagged_grade_public, HG.
  - base_step (bases (synthetic_exception u G Bs
                      :: AnyTagged G :: map AnyTagged Bs)).
    base_step (synthetic_exception u G Bs). apply Derives_refl.
Qed.

Lemma graded_any_tagged_Exception E :
  graded E ->
  Derives public_access (any_tagged_type E) (any_tagged_type Exception).
Proof.
  induction 1 as [|G HG|u G Bs HG IH].
  - apply Derives_refl.
  - apply any_tagged_grade_any_tagged_Exception, HG.
  - base_step (bases (synthetic_exception u G Bs
                      :: AnyTagged G :: map AnyTagged Bs)).
    base_step (AnyTagged G).
    unfold AnyTagged. rewrite (graded_declaring_class G HG). exact IH.
Qed.

Lemma graded_tagged_any_tagged E tag :
  graded E -> Derives public_access (tagged_type E tag) (any_tagged_type E).
Proof.
  intros [|G HG|u G Bs _].
  - apply tagged_Exception_public.
  - apply tagged_grade_any_tagged, HG.
  - base_step (bases (synthetic_exception u G Bs
                      :: any_tagged_type (synthetic_exception u G Bs)
                      :: Tagged G tag :: map (fun B => Tagged B tag) Bs)).
    base_step (any_tagged_type (synthetic_exception u G Bs)).
    apply Derives_refl.
Qed.

Lemma graded_tagged_Exception E tag :
  graded E ->
  Derives public_access (tagged_type E tag) (tagged_type Exception tag).
Proof.
  induction 1 as [|G HG|u G Bs HG IH].
  - apply Derives_refl.
  - apply tagged_grade_tagged_Exception, HG.
  - base_step (bases (synthetic_exception u G Bs
                      :: any_tagged_type (synthetic_exception u G Bs)
                      :: Tagged G tag :: map (fun B => Tagged B tag) Bs)).
    base_step (Tagged G tag).
    unfold Tagged. rewrite (graded_declaring_class G HG). exact IH.
Qed.

(** The five handlers of a tagged object, each reached through public
    bases. *)
Lemma graded_handlers E tag Handler :
  graded E ->
  In Handler [E; AnyTagged E; Tagged Exception tag; AnyTaggedException;
              Exception] ->
  Derives public_access (Tagged E tag) Handler
  /\ Derives public_access Handler Exception.
Proof.
  intros HE HH.
  unfold AnyTagged, Tagged, AnyTaggedException in *.
  rewrite (graded_declaring_class E HE) in *.
  pose proof (graded_public E HE) as P0.
  pose proof (graded_any_tagged E HE) as P1.
  pose proof (graded_any_tagged_Exception E HE) as P2.
  pose proof (graded_tagged_any_tagged E tag HE) as P3.
  pose proof (graded_tagged_Exception E tag HE) as P4.
  pose proof any_tagged_Exception_public as P5.
  cbn [declaring_class] in *.
  simpl in HH.
  pose proof (tagged_Exception_public tag) as P6.
  pose proof (Derives_trans public_access) as T.
  destruct HH as [<-|[<-|[<-|[<-|[<-|[]]]]]]; split.
  - exact (T _ _ _ P3 P1).
  - exact P0.
  - exact P3.
  - exact (T _ _ _ P1 P0).
  - exact P4.
  - exact (T _ _ _ P6 P5).
  - exact (T _ _ _ P3 P2).
  - exact P5.
  - exact (T _ _ _ P3 (T _ _ _ P1 P0)).
  - apply Derives_refl.
Qed.

(** *** The claims about grades and tags *)

(** C3.  An object whose class is [G::tagged_type< T >], or derives from it,
    answers true to [is_a< G >()], to [is_a< G::any_tagged_type >()], to
    [is_a< Exception::tagged_type< T > >()] and to [is_a< Exception >()], for
    each of the five grades [G] and every tag [T]. *)
Theorem tagged_object_answers_grade_and_tag G T MostDerived :
  In G grades ->
  is_base_of (tagged_type G T) MostDerived = true ->
  is_a G MostDerived = true
  /\ is_a (any_tagged_type G) MostDerived = true
  /\ is_a (tagged_type Exception T) MostDerived = true
  /\ is_a Exception MostDerived = true.
Proof.
  intros HG HM. apply is_base_of_Derives in HM.
  pose proof (graded_grade G HG) as HE.
  assert (Hh : forall Handler,
             In Handler [G; AnyTagged G; Tagged Exception T;
                         AnyTaggedException; Exception] ->
             is_a Handler MostDerived = true).
  { intros Handler HH.
    destruct (graded_handlers G T Handler HE HH) as [P Q].
    unfold Tagged in P. rewrite (graded_declaring_class G HE) in P.
    apply is_a_intro; [|exact Q].
    eapply Derives_trans; [exact HM|]. apply Derives_any_access with (1 := P). }
  unfold AnyTagged, Tagged in Hh. rewrite (graded_declaring_class G HE) in Hh.
  cbn [declaring_class] in Hh.
  repeat split; apply Hh; simpl; tauto.
Qed.

Lemma tagged_object_answers_grade_and_tag_witness :
  In Condition grades
  /\ is_base_of (tagged_type Condition "myTag")
       (build_exception (tagged_type Condition "myTag")) = true
  /\ is_a Condition (build_exception (tagged_type Condition "myTag")) = true
  /\ is_a (any_tagged_type Condition)
       (build_exception (tagged_type Condition "myTag")) = true
  /\ is_a (tagged_type Exception "myTag")
       (build_exception (tagged_type Condition "myTag")) = true
  /\ is_a Exception (build_exception (tagged_type Condition "myTag")) = true.
Proof.
  split; [simpl; tauto|]. split; [reflexivity|].
  apply (tagged_object_answers_grade_and_tag Condition "myTag"
           (build_exception (tagged_type Condition "myTag")));
    [simpl; tauto | reflexivity].
Defined.

(** C5.  For a grade (or a [synthetic_exception] over one) and a tag, the
    one class [Tagged< Grade, tag >] is enough: an object that has it as a
    public base is caught by, and answers [is_a] for, the plain grade,
    [AnyTagged< Grade >], [Tagged< Exception, tag >], [AnyTaggedException] and
    [Exception]. *)
Theorem one_class_per_grade_and_tag Grade tag MostDerived Handler :
  graded Grade ->
  is_public_base_of (Tagged Grade tag) MostDerived = true ->
  In Handler [Grade; AnyTagged Grade; Tagged Exception tag;
              AnyTaggedException; Exception] ->
  catches Handler MostDerived = true /\ is_a Handler MostDerived = true.
Proof.
  intros HE HM HH. apply is_public_base_of_Derives in HM.
  destruct (graded_handlers Grade tag Handler HE HH) as [P Q].
  assert (R : Derives public_access MostDerived Handler)
    by (eapply Derives_trans; eauto).
  split.
  - apply is_public_base_of_Derives, R.
  - apply is_a_intro; [|exact Q]. apply Derives_any_access with (1 := R).
Qed.

Lemma one_class_per_grade_and_tag_witness :
  catches AnyTaggedException (build_exception (Tagged FinishedCondition "myTag"))
    = true
  /\ is_a AnyTaggedException (build_exception (Tagged FinishedCondition "myTag"))
     = true.
Proof.
  apply (one_class_per_grade_and_tag FinishedCondition "myTag"
           (build_exception (Tagged FinishedCondition "myTag"))
           AnyTaggedException).
  - apply graded_synthetic, graded_grade. simpl; tauto.
  - reflexivity.
  - simpl; tauto.
Defined.

(** C6.  Every object that has a grade class, an any-tagged or a tagged
    variant of one as a base is an [Exception]: [is_a< Exception >()] is
    true, and where the path to the variant is public a handler for
    [Exception] catches the object. *)
Theorem every_graded_object_is_an_Exception G T Variant MostDerived :
  In G grades ->
  In Variant [G; any_tagged_type G; tagged_type G T] ->
  is_base_of Variant MostDerived = true ->
  is_a Exception MostDerived = true
  /\ (is_public_base_of Variant MostDerived = true ->
      catches Exception MostDerived = true).
Proof.
  intros HG HV HM.
  pose proof (graded_grade G HG) as HE.
  assert (P : Derives public_access Variant Exception).
  { simpl in HV. destruct HV as [<-|[<-|[<-|[]]]].
    - apply graded_public, HE.
    - eapply Derives_trans; [apply graded_any_tagged, HE|].
      apply graded_public, HE.
    - eapply Derives_trans; [apply graded_tagged_any_tagged, HE|].
      eapply Derives_trans; [apply graded_any_tagged, HE|].
      apply graded_public, HE. }
  split.
  - apply is_a_intro; [|apply Derives_refl].
    apply is_base_of_Derives in HM.
    eapply Derives_trans; [exact HM|]. apply Derives_any_access with (1 := P).
  - intros HP. apply is_public_base_of_Derives in HP.
    apply is_public_base_of_Derives. eapply Derives_trans; eauto.
Qed.

Lemma every_graded_object_is_an_Exception_witness :
  is_a Exception (build_exception (tagged_type Error "myTag")) = true
  /\ (is_public_base_of (tagged_type Error "myTag")
        (build_exception (tagged_type Error "myTag")) = true ->
      catches Exception (build_exception (tagged_type Error "myTag")) = true).
Proof.
  apply (every_graded_object_is_an_Exception Error "myTag"
           (tagged_type Error "myTag")
           (build_exception (tagged_type Error "myTag")));
    [simpl; tauto | simpl; tauto | reflexivity].
Defined.

(** [is_a< Error >()] asks whether [Error] is a base of the object's class,
    and nothing about an order of grades. *)
Lemma is_a_Error MostDerived :
  is_a Error MostDerived = is_base_of Error MostDerived.
Proof.
  apply is_a_is_base_of. reflexivity.
Qed.

(** C2, as stated, fails: the object that [build_exception< CriticalError >]
    returns has grade [CriticalError] and answers false to
    [is_a< Error >()]. *)
Lemma CriticalError_object_is_not_an_Error :
  is_base_of CriticalError (build_exception CriticalError) = true
  /\ is_a Error (build_exception CriticalError) = false.
Proof.
  split; reflexivity.
Qed.

(** C2, amended.  The grades are sibling classes under [Exception], with no
    order among them.  In the class table, [Error] is not a base of
    [CriticalError] or [Violation], nor of their [any_tagged_type] and
    [tagged_type< T >], each of which has its grade and [Exception] as public
    bases.  [is_a< Error >()] is true of an object exactly when [Error] is a
    base of its class.  So the object that [build_exception] makes at grade
    [CriticalError], plain or tagged, answers false to [is_a< Error >()] and
    true to [is_a< CriticalError >()] and [is_a< Exception >()].  (No object
    of grade [Violation] can be built, lines 280-281: for that grade the
    statement is about the classes only.) *)
Theorem grades_above_Error_are_not_Errors G T Variant Kind MostDerived :
  In G [CriticalError; Violation] ->
  In Variant [G; any_tagged_type G; tagged_type G T] ->
  In Kind [CriticalError; tagged_type CriticalError T] ->
  (is_base_of Error Variant = false
   /\ is_public_base_of G Variant = true
   /\ is_public_base_of Exception Variant = true)
  /\ is_a Error MostDerived = is_base_of Error MostDerived
  /\ (is_a Error (build_exception Kind) = false
      /\ is_a CriticalError (build_exception Kind) = true
      /\ is_a Exception (build_exception Kind) = true).
Proof.
  intros HG HV HK. split; [|split].
  - simpl in HG, HV.
    destruct HG as [<-|[<-|[]]]; destruct HV as [<-|[<-|[<-|[]]]];
      repeat split; vm_compute; reflexivity.
  - apply is_a_Error.
  - simpl in HK. destruct HK as [<-|[<-|[]]];
      repeat split; vm_compute; reflexivity.
Qed.

Lemma grades_above_Error_are_not_Errors_witness :
  (is_base_of Error (tagged_type CriticalError "myTag") = false
   /\ is_public_base_of CriticalError (tagged_type CriticalError "myTag")
      = true
   /\ is_public_base_of Exception (tagged_type CriticalError "myTag") = true)
  /\ is_a Error (build_exception (tagged_type CriticalError "myTag"))
     = is_base_of Error (build_exception (tagged_type CriticalError "myTag"))
  /\ (is_a Error (build_exception (tagged_type CriticalError "myTag")) = false
      /\ is_a CriticalError
           (build_exception (tagged_type CriticalError "myTag")) = true
      /\ is_a Exception
           (build_exception (tagged_type CriticalError "myTag")) = true).
Proof.
  apply (grades_above_Error_are_not_Errors CriticalError "myTag"
           (tagged_type CriticalError "myTag")
           (tagged_type CriticalError "myTag")
           (build_exception (tagged_type CriticalError "myTag")));
    simpl; tauto.
Defined.

(** *** [tag()] *)

Lemma nodup_constant (x : CxxType) (l : list CxxType) :
  (forall y, In y l -> y = x) -> nodup CxxType_eq_dec (x :: l) = [x].
Proof.
  induction l as [|y l IH]; intros Hall; [reflexivity|].
  assert (y = x) as -> by (apply Hall; left; reflexivity).
  change (nodup CxxType_eq_dec (x :: x :: l))
    with (if in_dec CxxType_eq_dec x (x :: l)
          then nodup CxxType_eq_dec (x :: l)
          else x :: nodup CxxType_eq_dec (x :: l)).
  destruct (in_dec CxxType_eq_dec x (x :: l)) as [_|Hn].
  - apply IH. intros z Hz. apply Hall. right. exact Hz.
  - exfalso. apply Hn. left. reflexivity.
Qed.

Lemma tag_of_constant_overriders MostDerived x l :
  overriders (ancestors any_access (rank MostDerived) MostDerived) = x :: l ->
  (forall y, In y l -> y = x) ->
  tag MostDerived = Some x.
Proof.
  intros E Hall. unfold tag. rewrite E, nodup_constant; auto.
Qed.

Ltac constant_overriders :=
  eapply tag_of_constant_overriders;
  [ vm_compute; reflexivity
  | let y := fresh "y" in let H := fresh "H" in
    simpl; intros y H; repeat (destruct H as [<-|H]);
    try contradiction; reflexivity ].

(** The object built at a tagged grade returns, as its [tag()], the
    [type_index] of [std::type_identity< Tag >]. *)
Lemma tag_build_exception G T :
  In G (Exception :: grades) ->
  tag (build_exception (tagged_type G T))
  = Some (typeid (std_type_identity (tag_type T))).
Proof.
  simpl. intros H.
  repeat (destruct H as [<-|H]); try contradiction; constant_overriders.
Qed.

Lemma overriders_In C Cs i :
  In C Cs -> tag_overrider C = Some i -> In i (overriders Cs).
Proof.
  induction Cs as [|D Cs IH]; simpl; [tauto|].
  intros [->|H] E.
  - rewrite E. left. reflexivity.
  - destruct (tag_overrider D); [right|]; auto.
Qed.

(** Wherever the call [tag()] has its one final overrider, an object with a
    base [G::tagged_type< T >] returns the [type_index] of
    [std::type_identity< T >]. *)
Lemma tag_determined_by_the_tag G T MostDerived i :
  In G (Exception :: grades) ->
  is_base_of (tagged_type G T) MostDerived = true ->
  tag MostDerived = Some i ->
  i = typeid (std_type_identity (tag_type T)).
Proof.
  intros HG HM Htag.
  assert (HE : graded G).
  { destruct HG as [<-|HG]; [apply graded_Exception | apply graded_grade, HG]. }
  apply is_base_of_Derives in HM.
  assert (P : Derives any_access MostDerived (tagged_type Exception T)).
  { eapply Derives_trans; [exact HM|].
    apply Derives_any_access with (1 := graded_tagged_Exception G T HE). }
  apply ancestors_complete with (fuel := rank MostDerived) in P; [|lia].
  apply overriders_In with (i := typeid (std_type_identity (tag_type T))) in P;
    [|reflexivity].
  apply (nodup_In CxxType_eq_dec) in P.
  unfold tag in Htag.
  destruct (nodup CxxType_eq_dec
              (overriders
                 (ancestors any_access (rank MostDerived) MostDerived)))
    as [|j [|k l]]; try discriminate.
  inversion Htag; subst j. destruct P as [P|[]]. exact P.
Qed.

(** C7.  The [tag()] of the object built from [G::tagged_type< T1 >] is the
    [type_index] of [std::type_identity< T1 >].  Two objects tagged [T1]
    return equal values whatever their grades, and an object tagged with
    another type [T2] returns a different value. *)
Theorem tag_discriminates_by_tag_only G1 G2 T1 T2 :
  In G1 (Exception :: grades) ->
  In G2 (Exception :: grades) ->
  tag (build_exception (tagged_type G1 T1))
  = Some (typeid (std_type_identity (tag_type T1)))
  /\ (forall M1 M2 i1 i2,
         is_base_of (tagged_type G1 T1) M1 = true ->
         is_base_of (tagged_type G2 T1) M2 = true ->
         tag M1 = Some i1 -> tag M2 = Some i2 -> i1 = i2)
  /\ (T1 <> T2 ->
      forall M1 M2 i1 i2,
        is_base_of (tagged_type G1 T1) M1 = true ->
        is_base_of (tagged_type G2 T2) M2 = true ->
        tag M1 = Some i1 -> tag M2 = Some i2 -> i1 <> i2).
Proof.
  intros H1 H2. split; [apply tag_build_exception, H1|]. split.
  - intros M1 M2 i1 i2 B1 B2 E1 E2.
    rewrite (tag_determined_by_the_tag G1 T1 M1 i1 H1 B1 E1).
    rewrite (tag_determined_by_the_tag G2 T1 M2 i2 H2 B2 E2).
    reflexivity.
  - intros Hne M1 M2 i1 i2 B1 B2 E1 E2.
    rewrite (tag_determined_by_the_tag G1 T1 M1 i1 H1 B1 E1).
    rewrite (tag_determined_by_the_tag G2 T2 M2 i2 H2 B2 E2).
    unfold typeid. intros E. apply Hne. congruence.
Qed.

Lemma tag_discriminates_by_tag_only_witness :
  tag (build_exception (tagged_type Condition "Foo"))
  = Some (typeid (std_type_identity (tag_type "Foo")))
  /\ (forall M1 M2 i1 i2,
         is_base_of (tagged_type Condition "Foo") M1 = true ->
         is_base_of (tagged_type Error "Foo") M2 = true ->
         tag M1 = Some i1 -> tag M2 = Some i2 -> i1 = i2)
  /\ ("Foo" <> "Bar" ->
      forall M1 M2 i1 i2,
        is_base_of (tagged_type Condition "Foo") M1 = true ->
        is_base_of (tagged_type Error "Bar") M2 = true ->
        tag M1 = Some i1 -> tag M2 = Some i2 -> i1 <> i2).
Proof.
  apply (tag_discriminates_by_tag_only Condition Error "Foo" "Bar");
    simpl; tauto.
Defined.

(** *** Two remarks on the class table *)

(** Every base specifier written in the header is virtual; only the
    standard library's classes derive non-virtually. *)
Remark header_bases_are_virtual C b :
  In b (direct_bases C) -> base_virtual b = false ->
  In C [std_bad_alloc; std_logic_error; std_out_of_range].
Proof.
  destruct C as [Bs|u G Bs|Exc|Exc tag| | | | | | | | | | | | | | | | | | | |
                 | |std|br K|br K|K| | | | ];
    try (simpl; intros H; repeat (destruct H as [<-|H]);
         try contradiction; simpl; intros; try discriminate; tauto).
  - simpl. intros H. apply in_map_iff in H. destruct H as [B [<- _]].
    discriminate.
  - destruct Exc; simpl; intros H; repeat (destruct H as [<-|H]);
      try contradiction; discriminate.
  - destruct Exc; simpl; intros H; repeat (destruct H as [<-|H]);
      try contradiction; discriminate.
  - destruct br; simpl; intros H; repeat (destruct H as [<-|H]);
      try contradiction; discriminate.
Qed.

(** A class that only derives from a [synthetic_exception] is not a base of
    the tagged class found through it. *)
Remark Tagged_of_a_derived_class :
  is_a NamedResourceException
    (build_exception (Tagged NamedResourceException "myTag")) = false.
Proof. reflexivity. Qed.

(** ** Further properties of the class table *)

Lemma build_exception_cases Kind :
  build_exception Kind = Thrown Kind
  \/ exists b, build_exception Kind = build_exception_Error b Kind.
Proof.
  unfold build_exception.
  destruct (is_base_of AllocationError Kind); [right; eauto|].
  destruct (is_base_of IndexOutOfRangeError Kind); [right; eauto|].
  destruct (is_base_of Error Kind); [right; eauto|].
  left. reflexivity.
Qed.

Lemma is_base_of_trans A B C :
  is_base_of A B = true -> is_base_of B C = true -> is_base_of A C = true.
Proof.
  rewrite !is_base_of_Derives. intros HAB HBC.
  eapply Derives_trans; eauto.
Qed.


Lemma build_exception_Kind_public Kind :
  Derives public_access (build_exception Kind) Kind.
Proof.
  destruct (build_exception_cases Kind) as [->|[b ->]];
    base_step Kind; apply Derives_refl.
Qed.


Lemma Error_branch_of_build_exception Kind :
  is_base_of Error Kind = true ->
  exists b, build_exception Kind = build_exception_Error b Kind.
Proof.
  intros H. unfold build_exception. rewrite H.
  destruct (is_base_of AllocationError Kind); [eauto|].
  destruct (is_base_of IndexOutOfRangeError Kind); eauto.
Qed.

Lemma Thrown_branch_of_build_exception Kind :
  is_base_of Error Kind = false -> build_exception Kind = Thrown Kind.
Proof.
  intros H. unfold build_exception.
  destruct (is_base_of AllocationError Kind) eqn:EA.
  - rewrite (is_base_of_trans Error AllocationError Kind) in H;
      [discriminate | reflexivity | exact EA].
  - destruct (is_base_of IndexOutOfRangeError Kind) eqn:EI.
    + rewrite (is_base_of_trans Error IndexOutOfRangeError Kind) in H;
        [discriminate | reflexivity | exact EI].
    + rewrite H. reflexivity.
Qed.

Lemma branch_std_public b :
  Derives public_access (branch_std b) std_exception.
Proof.
  destruct b; simpl.
  - apply (Derives_step _ _ (nonvirtual_public std_exception));
      [simpl; tauto | reflexivity | apply Derives_refl].
  - apply (Derives_step _ _ (nonvirtual_public std_logic_error));
      [simpl; tauto | reflexivity | cbn [base_class nonvirtual_public]].
    apply (Derives_step _ _ (nonvirtual_public std_exception));
      [simpl; tauto | reflexivity | apply Derives_refl].
  - apply Derives_refl.
Qed.

(** X5.  The promise of the header's comment on [Error] (lines 47-53): the built
    object has [std::exception] as a base exactly when its [Kind] is an
    [Error], and then as a public base; a [Kind] that is an
    [AllocationError] gives an object with the public base
    [std::bad_alloc].  ([Kind] is taken not to derive from
    [std::exception] by itself.) *)
Theorem built_object_is_std_exception_iff_Error Kind :
  is_base_of std_exception Kind = false ->
  is_base_of std_exception (build_exception Kind) = is_base_of Error Kind
  /\ (is_base_of Error Kind = true ->
      is_public_base_of std_exception (build_exception Kind) = true)
  /\ (is_base_of AllocationError Kind = true ->
      is_public_base_of std_bad_alloc (build_exception Kind) = true).
Proof.
  intros Hstd.
  assert (Hpub : is_base_of Error Kind = true ->
                 is_public_base_of std_exception (build_exception Kind)
                 = true).
  { intros HE. destruct (Error_branch_of_build_exception Kind HE) as [b ->].
    apply is_public_base_of_Derives. base_step (branch_std b).
    apply branch_std_public. }
  split; [|split; [exact Hpub|]].
  - destruct (is_base_of Error Kind) eqn:HE.
    + apply is_public_base_of_is_base_of, Hpub. reflexivity.
    + rewrite (Thrown_branch_of_build_exception Kind HE).
      destruct (is_base_of std_exception (Thrown Kind)) eqn:E;
        [|reflexivity].
      apply is_base_of_Derives in E.
      inversion E as [|D b B Hin _ Hrest]; subst.
      simpl in Hin. destruct Hin as [<-|[<-|[]]]; simpl in Hrest.
      * apply is_base_of_Derives in Hrest. congruence.
      * apply is_base_of_Derives in Hrest. discriminate.
  - intros HA. unfold build_exception. rewrite HA.
    apply is_public_base_of_Derives. base_step std_bad_alloc.
    apply Derives_refl.
Qed.

Lemma built_object_is_std_exception_iff_Error_witness :
  is_base_of std_exception (build_exception (Tagged AllocationError "myTag"))
  = is_base_of Error (Tagged AllocationError "myTag")
  /\ (is_base_of Error (Tagged AllocationError "myTag") = true ->
      is_public_base_of std_exception
        (build_exception (Tagged AllocationError "myTag")) = true)
  /\ (is_base_of AllocationError (Tagged AllocationError "myTag") = true ->
      is_public_base_of std_bad_alloc
        (build_exception (Tagged AllocationError "myTag")) = true).
Proof.
  apply (built_object_is_std_exception_iff_Error
           (Tagged AllocationError "myTag")).
  reflexivity.
Defined.

(** X6.  The grades exclude one another: the object built at a grade [G], plain
    or tagged, answers true to [is_a] of a grade [G'] exactly when [G'] is
    [G]. *)
Theorem grades_are_exclusive G G' T Kind :
  In G grades -> In G' grades -> In Kind [G; tagged_type G T] ->
  is_a G' (build_exception Kind) = true <-> G' = G.
Proof.
  simpl. intros HG HG' HK.
  repeat (destruct HG as [<-|HG]); try contradiction;
    repeat (destruct HG' as [<-|HG']); try contradiction;
    repeat (destruct HK as [<-|HK]); try contradiction;
    vm_compute; split; intros H; try reflexivity; discriminate H.
Qed.

Lemma grades_are_exclusive_witness :
  is_a Notification (build_exception (tagged_type Condition "myTag")) = true
  <-> Notification = Condition.
Proof.
  apply (grades_are_exclusive Condition Notification "myTag"
           (tagged_type Condition "myTag")); simpl; tauto.
Defined.

Ltac no_such_base H :=
  unfold is_base_of in H; rewrite mem_In in H; vm_compute in H;
  repeat (destruct H as [H|H]); try contradiction;
  try discriminate H; try (inversion H; subst; tauto).

(** X7.  The tags do not cross, nor do tagged grades: the object built from
    [G::tagged_type< T >] answers true to
    [is_a< Exception::tagged_type< T' > >()] exactly when [T'] is [T], and
    to [is_a< G'::tagged_type< T' > >()] exactly when moreover [G'] is [G]. *)
Theorem tags_do_not_cross G G' T T' :
  In G grades -> In G' grades ->
  (is_a (tagged_type Exception T') (build_exception (tagged_type G T)) = true
   <-> T' = T)
  /\ (is_a (tagged_type G' T') (build_exception (tagged_type G T)) = true
      <-> G' = G /\ T' = T).
Proof.
  intros HG HG'.
  assert (Hyes : forall Target,
             In Target [tagged_type G T; tagged_type Exception T] ->
             is_a Target (build_exception (tagged_type G T)) = true).
  { intros Target HT.
    pose proof (graded_grade G HG) as HE.
    pose proof (build_exception_Kind_public (tagged_type G T)) as HK.
    assert (HX : Derives public_access (tagged_type G T) Exception).
    { eapply Derives_trans; [apply graded_tagged_any_tagged, HE|].
      eapply Derives_trans; [apply graded_any_tagged, HE|].
      apply graded_public, HE. }
    simpl in HT. destruct HT as [<-|[<-|[]]]; apply is_a_intro.
    - apply Derives_any_access with (1 := HK).
    - exact HX.
    - apply Derives_any_access with (keep := public_access).
      eapply Derives_trans; [exact HK|]. apply graded_tagged_Exception, HE.
    - eapply Derives_trans;
        [apply tagged_Exception_public | apply any_tagged_Exception_public]. }
  split; split.
  - intros H. rewrite is_a_is_base_of in H.
    + simpl in HG.
      repeat (destruct HG as [<-|HG]); try contradiction; no_such_base H.
    + apply is_public_base_of_Derives.
      eapply Derives_trans;
        [apply tagged_Exception_public | apply any_tagged_Exception_public].
  - intros ->. apply Hyes. simpl; tauto.
  - intros H. rewrite is_a_is_base_of in H.
    + simpl in HG, HG'.
      repeat (destruct HG as [<-|HG]); try contradiction;
        repeat (destruct HG' as [<-|HG']); try contradiction;
        no_such_base H.
    + apply is_public_base_of_Derives.
      eapply Derives_trans; [apply graded_tagged_any_tagged|].
      * apply graded_grade, HG'.
      * eapply Derives_trans; [apply graded_any_tagged|apply graded_public];
          apply graded_grade, HG'.
  - intros [-> ->]. apply Hyes. simpl; tauto.
Qed.

Lemma tags_do_not_cross_witness :
  (is_a (tagged_type Exception "Bar")
     (build_exception (tagged_type Error "Foo")) = true
   <-> "Bar" = "Foo")
  /\ (is_a (tagged_type CriticalError "Bar")
        (build_exception (tagged_type Error "Foo")) = true
      <-> CriticalError = Error /\ "Bar" = "Foo").
Proof.
  apply (tags_do_not_cross Error CriticalError "Foo" "Bar"); simpl; tauto.
Defined.

(** X8.  An object built at a plain grade is on the grade axis only: it is no
    [AnyTaggedException], no any-tagged or tagged variant of its grade,
    and it has no overrider of [tag()]. *)
Theorem untagged_object_has_no_tag G T :
  In G grades ->
  is_a AnyTaggedException (build_exception G) = false
  /\ is_a (any_tagged_type G) (build_exception G) = false
  /\ is_a (tagged_type G T) (build_exception G) = false
  /\ is_a (tagged_type Exception T) (build_exception G) = false
  /\ tag (build_exception G) = None.
Proof.
  simpl. intros HG.
  repeat (destruct HG as [<-|HG]); try contradiction;
    repeat split; vm_compute; reflexivity.
Qed.

Lemma untagged_object_has_no_tag_witness :
  is_a AnyTaggedException (build_exception Error) = false
  /\ is_a (any_tagged_type Error) (build_exception Error) = false
  /\ is_a (tagged_type Error "myTag") (build_exception Error) = false
  /\ is_a (tagged_type Exception "myTag") (build_exception Error) = false
  /\ tag (build_exception Error) = None.
Proof.
  apply (untagged_object_has_no_tag Error "myTag"). simpl; tauto.
Defined.

(** X9.  A [synthetic_exception] is each of the classes it is made from, on
    every axis: the class itself is caught as its [GradeType] and as each
    of its [Bases], its any-tagged class as their any-tagged classes, and
    its class tagged [tag] as their classes tagged [tag]. *)
Theorem synthetic_exception_is_each_base u GradeType Bases B tag :
  In B (GradeType :: Bases) ->
  catches B (synthetic_exception u GradeType Bases) = true
  /\ catches (AnyTagged B)
       (AnyTagged (synthetic_exception u GradeType Bases)) = true
  /\ catches (Tagged B tag)
       (Tagged (synthetic_exception u GradeType Bases) tag) = true.
Proof.
  intros HB. unfold catches. rewrite !is_public_base_of_Derives.
  change (AnyTagged (synthetic_exception u GradeType Bases))
    with (any_tagged_type (synthetic_exception u GradeType Bases)).
  change (Tagged (synthetic_exception u GradeType Bases) tag)
    with (tagged_type (synthetic_exception u GradeType Bases) tag).
  repeat split.
  - base_step (bases (GradeType :: Bases)).
    apply (Derives_step _ _ (virtual_public B));
      [|reflexivity|apply Derives_refl].
    change (direct_bases (bases (GradeType :: Bases)))
      with (map virtual_public (GradeType :: Bases)).
    apply in_map, HB.
  - base_step (bases (synthetic_exception u GradeType Bases
                      :: AnyTagged GradeType :: map AnyTagged Bases)).
    apply (Derives_step _ _ (virtual_public (AnyTagged B)));
      [|reflexivity|apply Derives_refl].
    cbn [direct_bases]. apply in_map. right.
    change (AnyTagged GradeType :: map AnyTagged Bases)
      with (map AnyTagged (GradeType :: Bases)).
    apply in_map, HB.
  - base_step (bases (synthetic_exception u GradeType Bases
                      :: any_tagged_type
                           (synthetic_exception u GradeType Bases)
                      :: Tagged GradeType tag
                      :: map (fun B => Tagged B tag) Bases)).
    apply (Derives_step _ _ (virtual_public (Tagged B tag)));
      [|reflexivity|apply Derives_refl].
    cbn [direct_bases]. apply in_map. right. right.
    change (Tagged GradeType tag :: map (fun B => Tagged B tag) Bases)
      with (map (fun B => Tagged B tag) (GradeType :: Bases)).
    apply (in_map (fun B => Tagged B tag)), HB.
Qed.

Lemma synthetic_exception_is_each_base_witness :
  catches NamedResourceException NamedResourceError = true
  /\ catches (AnyTagged NamedResourceException)
       (AnyTagged NamedResourceError) = true
  /\ catches (Tagged NamedResourceException "myTag")
       (Tagged NamedResourceError "myTag") = true.
Proof.
  apply (synthetic_exception_is_each_base "named_resource_exception" Error
           [NamedResourceException] NamedResourceException "myTag").
  simpl; tauto.
Defined.

(** The classes of the header that derive from a [synthetic_exception]
    instead of being an alias of one. *)
Definition derived_from_synthetic : list Class :=
  [NamedResourceException; OutOfRangeException; IndexOutOfRangeException;
   IndexOutOfRangeError; IndexOutOfRangeCriticalError;
   IndexOutOfRangeViolation; AllocationException].

(** X10.  For such a class [C], the names [C::tagged_type< T >] and
    [C::any_tagged_type] are those of the [synthetic_exception] under it,
    which does not derive from [C]: an object built from [Tagged< C, T >]
    is not a [C], and no handler for [C] catches it. *)
Theorem Tagged_of_derived_class_is_not_the_class C T :
  In C derived_from_synthetic ->
  is_base_of C (Tagged C T) = false
  /\ is_base_of C (AnyTagged C) = false
  /\ is_a C (build_exception (Tagged C T)) = false
  /\ catches C (build_exception (Tagged C T)) = false.
Proof.
  simpl. intros HC.
  repeat (destruct HC as [<-|HC]); try contradiction;
    repeat split; vm_compute; reflexivity.
Qed.

Lemma Tagged_of_derived_class_is_not_the_class_witness :
  is_base_of AllocationException (Tagged AllocationException "myTag") = false
  /\ is_base_of AllocationException (AnyTagged AllocationException) = false
  /\ is_a AllocationException
       (build_exception (Tagged AllocationException "myTag")) = false
  /\ catches AllocationException
       (build_exception (Tagged AllocationException "myTag")) = false.
Proof.
  apply (Tagged_of_derived_class_is_not_the_class AllocationException
           "myTag").
  simpl; tauto.
Defined.

(** ** [message()] and [what()] (lines 121, 214, 444-463)

    What the body of a virtual function does, for the two functions that
    return the text of an exception. *)
Inductive Body : Type :=
| pure_virtual
| returns_storage
| returns_message
| library_text.

(** [message()]: declared pure in [Exception], defined in
    [MessageStorage], where it returns [storage.c_str()]. *)
Definition declares_message (C : Class) : option Body :=
  match C with
  | Exception => Some pure_virtual
  | MessageStorage => Some returns_storage
  | _ => None
  end.

(** [what()]: declared pure in [ErrorBridgeInterface], defined in
    [GenericExceptionBridge], where it returns [message()]; the standard
    classes have their own. *)
Definition declares_what (C : Class) : option Body :=
  match C with
  | ErrorBridgeInterface => Some pure_virtual
  | GenericExceptionBridge _ => Some returns_message
  | std_exception | std_bad_alloc | std_logic_error => Some library_text
  | _ => None
  end.

Definition declared (declares : Class -> option Body) (C : Class) : bool :=
  match declares C with
  | Some _ => true
  | None => false
  end.

(** The final overriders, in an object of class [MostDerived], of the
    virtual function that [Introduced] introduces: the classes of the
    object that declare it and derive from [Introduced], less those that
    are a base of another such class. *)
Definition final_overriders (declares : Class -> option Body)
                            (Introduced MostDerived : Class) : list Class :=
  let ds :=
    nodup Class_eq_dec
      (filter (fun D => declared declares D && is_base_of Introduced D)
              (ancestors any_access (rank MostDerived) MostDerived)) in
  filter (fun D =>
            negb (existsb (fun D' => negb (Class_eqb D D')
                                     && is_base_of D D') ds))
         ds.

(** An exception object: its class, and the [storage] of its
    [MessageStorage] subobject. *)
Record object : Type := { class_of : Class; storage : string }.

(** [build_exception< Kind >( message )]: the constructor of the local
    class passes [message] to [MessageStorage], which stores it. *)
Definition build_exception_object (Kind : Class) (message : string)
  : object :=
  {| class_of := build_exception Kind; storage := message |}.

(** [std::string::c_str()], read as the C string that a [const char *]
    is: the characters before the first NUL. *)
Fixpoint c_str (s : string) : string :=
  match s with
  | EmptyString => EmptyString
  | String ch rest =>
      if Ascii.eqb ch Ascii.zero then EmptyString else String ch (c_str rest)
  end.

(** Whether a text holds a NUL. *)
Fixpoint has_NUL (s : string) : bool :=
  match s with
  | EmptyString => false
  | String ch rest => Ascii.eqb ch Ascii.zero || has_NUL rest
  end.

(** The virtual call [e.message()] on an [Exception &]: the C string at
    [storage.c_str()]; [None] where the object has no single final overrider
    with a body. *)
Definition message (e : object) : option string :=
  match final_overriders declares_message Exception (class_of e) with
  | [D] =>
      match declares_message D with
      | Some returns_storage => Some (c_str (storage e))
      | _ => None
      end
  | _ => None
  end.

(** The virtual call [e.what()] through a reference to [Introduced],
    which is [std::exception] or [ErrorBridgeInterface]; [None] where the
    text is not the header's to give. *)
Definition what (Introduced : Class) (e : object) : option string :=
  match final_overriders declares_what Introduced (class_of e) with
  | [D] =>
      match declares_what D with
      | Some returns_message => message e
      | _ => None
      end
  | _ => None
  end.

(** The grades of which [build_exception] can make an object
    ([Violation] has no constructor it could use), and the kinds of the
    [Error] grade for which it supplies every pure virtual function: the
    grade and the two aliases over it that need no further storage or get
    it from their branch, each plain and tagged. *)
Definition buildable_grades : list Class :=
  [Condition; Notification; Error; CriticalError].

Definition buildable_Error_kinds (T : Tag) : list Class :=
  [Error; tagged_type Error T;
   OutOfRangeError; Tagged OutOfRangeError T;
   AllocationError; Tagged AllocationError T].

Lemma c_str_without_NUL (text : string) :
  has_NUL text = false -> c_str text = text.
Proof.
  induction text as [|ch rest IH]; simpl; [reflexivity|].
  destruct (Ascii.eqb ch Ascii.zero); simpl; [discriminate|].
  intros H. rewrite IH by exact H. reflexivity.
Qed.

Lemma c_str_has_no_NUL (text : string) : has_NUL (c_str text) = false.
Proof.
  induction text as [|ch rest IH]; simpl; [reflexivity|].
  destruct (Ascii.eqb ch Ascii.zero) eqn:E; simpl; [reflexivity|].
  rewrite E. exact IH.
Qed.

(** X11.  Every object built at a grade, plain or tagged, gives back through
    [message()] the text it was built with as far as its first NUL, which
    is all of it when the text holds none: [message()] returns
    [storage.c_str()].  Built from a kind of the [Error] grade it gives the
    same C string through [what()], called as a [std::exception] or as an
    [Error]. *)
Theorem built_object_returns_its_message G T Kind text :
  (In G buildable_grades -> In Kind [G; tagged_type G T] ->
   message (build_exception_object Kind text) = Some (c_str text)
   /\ (has_NUL text = false ->
       message (build_exception_object Kind text) = Some text))
  /\ (In Kind (buildable_Error_kinds T) ->
      message (build_exception_object Kind text) = Some (c_str text)
      /\ what std_exception (build_exception_object Kind text)
         = Some (c_str text)
      /\ what ErrorBridgeInterface (build_exception_object Kind text)
         = Some (c_str text)
      /\ (has_NUL text = false ->
          message (build_exception_object Kind text) = Some text
          /\ what std_exception (build_exception_object Kind text)
             = Some text
          /\ what ErrorBridgeInterface (build_exception_object Kind text)
             = Some text)).
Proof.
  assert (M : forall K,
             final_overriders declares_message Exception (build_exception K)
             = [MessageStorage] ->
             message (build_exception_object K text) = Some (c_str text)).
  { intros K H. unfold message. cbn [class_of build_exception_object storage].
    rewrite H. reflexivity. }
  assert (W : forall K I,
             final_overriders declares_message Exception (build_exception K)
             = [MessageStorage] ->
             (exists std,
                 final_overriders declares_what I (build_exception K)
                 = [GenericExceptionBridge std]) ->
             what I (build_exception_object K text) = Some (c_str text)).
  { intros K I H [std H']. unfold what.
    cbn [class_of build_exception_object]. rewrite H'. cbn [declares_what].
    apply M, H. }
  split.
  - simpl. intros HG HK.
    assert (E : message (build_exception_object Kind text)
                = Some (c_str text)).
    { apply M.
      repeat (destruct HG as [<-|HG]); try contradiction;
        repeat (destruct HK as [<-|HK]); try contradiction;
        vm_compute; reflexivity. }
    split; [exact E|]. intros HN. rewrite E, c_str_without_NUL by exact HN.
    reflexivity.
  - simpl. intros HK.
    assert (E : message (build_exception_object Kind text)
                = Some (c_str text)
                /\ what std_exception (build_exception_object Kind text)
                   = Some (c_str text)
                /\ what ErrorBridgeInterface (build_exception_object Kind text)
                   = Some (c_str text)).
    { repeat (destruct HK as [<-|HK]); try contradiction;
        (split; [|split]);
        [ apply M | apply W; [|eexists] | apply W; [|eexists]
        | apply M | apply W; [|eexists] | apply W; [|eexists]
        | apply M | apply W; [|eexists] | apply W; [|eexists]
        | apply M | apply W; [|eexists] | apply W; [|eexists]
        | apply M | apply W; [|eexists] | apply W; [|eexists]
        | apply M | apply W; [|eexists] | apply W; [|eexists] ];
        vm_compute; reflexivity. }
    destruct E as [E1 [E2 E3]].
    repeat split; try assumption;
      rewrite <- (c_str_without_NUL text) at 2 by assumption; assumption.
Qed.

Lemma built_object_returns_its_message_witness :
  (message (build_exception_object (tagged_type Error "myTag") "disk full")
   = Some (c_str "disk full")
   /\ (has_NUL "disk full" = false ->
       message (build_exception_object (tagged_type Error "myTag")
                  "disk full") = Some "disk full"))
  /\ what std_exception
       (build_exception_object (tagged_type Error "myTag") "disk full")
     = Some "disk full".
Proof.
  split.
  - apply (proj1 (built_object_returns_its_message Error "myTag"
                    (tagged_type Error "myTag") "disk full"));
      simpl; tauto.
  - apply (proj2 (built_object_returns_its_message Error "myTag"
                    (tagged_type Error "myTag") "disk full"));
      [simpl; tauto | reflexivity].
Defined.

(** A text with a NUL in it comes back cut. *)
Example message_is_cut_at_NUL :
  message (build_exception_object Error
             (String "a" (String Ascii.zero (String "b" EmptyString))))
  = Some "a".
Proof. reflexivity. Qed.

End exceptions.

(* ================================================================== *)
(** * The table-test harness : [TableTest::Cases::operator()]          *)
(* ================================================================== *)

Module table_test.

Local Open Scope Z_scope.

(** [failureCount] is an [int]. *)
Definition INT_MAX : Z := 2147483647.

Section TableTest.

(** [args_type] and [return_type] come from the function under test.  The
    function is called through [std::apply( function, params )]; it may read
    and change the state of the program, [World].  [equal] is the
    [operator ==] of [return_type]. *)
Variables args_type return_type World : Type.
Variable function : args_type -> World -> return_type * World.
Variable equal : return_type -> return_type -> bool.

(** [using TestDescription= std::tuple< std::string, args_type, return_type >]. *)
Record TestDescription : Type :=
  { comment : string; params : args_type; expected : return_type }.

(** What the harness writes to [std::cout] for one case: the SUCCESS line, or
    the FAILURE line followed by [printDebugging( witness, expected )]. *)
Inductive Line : Type :=
| SUCCESS (comment : string)
| FAILURE (comment : string) (witness expected : return_type).

(** The variables of the loop. *)
Record Run : Type :=
  { failureCount : Z; world : World; cout : list Line }.

(** The body of the [for] loop (lines 370-383).  [++failureCount] past
    [INT_MAX] is undefined: the run has no result, [None]. *)
Definition iteration (r : Run) (t : TestDescription) : option Run :=
  let (witness, w) := function (params t) (world r) in
  let result := equal witness (expected t) in
  if negb result then
    if failureCount r <? INT_MAX then
      Some {| failureCount := failureCount r + 1;
              world := w;
              cout := cout r ++ [FAILURE (comment t) witness (expected t)] |}
    else None
  else
    Some {| failureCount := failureCount r;
            world := w;
            cout := cout r ++ [SUCCESS (comment t)] |}.

Fixpoint loop (r : Run) (tests : list TestDescription) : option Run :=
  match tests with
  | [] => Some r
  | t :: rest =>
      match iteration r t with
      | Some r' => loop r' rest
      | None => None
      end
  end.

(** [Cases::operator()] (lines 366-386): the returned [failureCount], with
    the state the calls leave and the lines written. *)
Definition Cases_call (tests : list TestDescription) (w : World)
  : option (Z * World * list Line) :=
  match loop {| failureCount := 0; world := w; cout := [] |} tests with
  | Some r => Some (failureCount r, world r, cout r)
  | None => None
  end.

(** ** What the claim speaks of

    The calls in list order: each case's function value, computed in the
    state its predecessors left. *)
Fixpoint witnesses (tests : list TestDescription) (w : World)
  : list return_type :=
  match tests with
  | [] => []
  | t :: rest =>
      let (witness, w') := function (params t) w in
      witness :: witnesses rest w'
  end.

(** The state after calling the function on every case in list order. *)
Definition world_after (tests : list TestDescription) (w : World) : World :=
  fold_left (fun w t => snd (function (params t) w)) tests w.

(** A case passes when its function value equals its expected output. *)
Definition passes (t : TestDescription) (witness : return_type) : bool :=
  equal witness (expected t).

(** The number of cases whose function value differs from the expected one. *)
Fixpoint failures (tests : list TestDescription) (ws : list return_type)
  : nat :=
  match tests, ws with
  | t :: rest, witness :: ws' =>
      (if passes t witness then 0 else 1) + failures rest ws'
  | _, _ => 0
  end%nat.

(** The lines of a run, one per case, in list order. *)
Fixpoint report (tests : list TestDescription) (ws : list return_type)
  : list Line :=
  match tests, ws with
  | t :: rest, witness :: ws' =>
      (if passes t witness then SUCCESS (comment t)
       else FAILURE (comment t) witness (expected t)) :: report rest ws'
  | _, _ => []
  end.

(** ** Theorems *)

Lemma loop_spec (tests : list TestDescription) (r : Run) :
  0 <= failureCount r ->
  failureCount r + Z.of_nat (failures tests (witnesses tests (world r)))
    <= INT_MAX ->
  loop r tests
  = Some {| failureCount :=
              failureCount r
              + Z.of_nat (failures tests (witnesses tests (world r)));
            world := world_after tests (world r);
            cout := cout r ++ report tests (witnesses tests (world r)) |}.
Proof.
  revert r. induction tests as [|t rest IH]; intros r Hpos Hmax.
  - simpl. rewrite Z.add_0_r, app_nil_r. destruct r; reflexivity.
  - unfold world_after. simpl in *. unfold iteration.
    destruct (function (params t) (world r)) as [witness w] eqn:Ecall.
    simpl in *. unfold passes in *.
    destruct (equal witness (expected t)) eqn:Eeq; simpl in *.
    + rewrite IH; simpl; try lia.
      rewrite <- app_assoc. reflexivity.
    + assert (Hlt : (failureCount r <? INT_MAX) = true)
        by (apply Z.ltb_lt; lia).
      rewrite Hlt, IH; simpl; try lia.
      rewrite <- app_assoc. f_equal. f_equal. lia.
Qed.

Lemma failures_zero_iff (tests : list TestDescription) (w : World) :
  failures tests (witnesses tests w) = 0%nat
  <-> Forall2 (fun t witness => passes t witness = true)
              tests (witnesses tests w).
Proof.
  revert w. induction tests as [|t rest IH]; intros w; simpl.
  - split; [constructor | reflexivity].
  - destruct (function (params t) w) as [witness w']. simpl.
    destruct (passes t witness) eqn:E; simpl.
    + rewrite IH. split.
      * intros H. constructor; assumption.
      * intros H. inversion H; assumption.
    + split; [discriminate|].
      intros H. inversion H; congruence.
Qed.

(** C4.  [operator()] calls the function on each case in list order and
    returns the number of cases whose function value differs from the
    expected output, as long as that number fits [int]; so it returns 0
    exactly when every case passes. *)
Theorem Cases_call_counts_failures (tests : list TestDescription) (w : World) :
  Z.of_nat (failures tests (witnesses tests w)) <= INT_MAX ->
  Cases_call tests w
  = Some (Z.of_nat (failures tests (witnesses tests w)),
          world_after tests w,
          report tests (witnesses tests w))
  /\ (Z.of_nat (failures tests (witnesses tests w)) = 0
      <-> Forall2 (fun t witness => passes t witness = true)
                  tests (witnesses tests w)).
Proof.
  intros Hmax. split.
  - unfold Cases_call. rewrite loop_spec; simpl; try lia. reflexivity.
  - rewrite <- failures_zero_iff. lia.
Qed.

(** ** Further properties of [Cases::operator()] *)

Lemma witnesses_length (tests : list TestDescription) (w : World) :
  List.length (witnesses tests w) = List.length tests.
Proof.
  revert w. induction tests as [|t rest IH]; intros w; simpl; [reflexivity|].
  destruct (function (params t) w) as [witness w']. simpl. rewrite IH.
  reflexivity.
Qed.

Lemma failures_le_length (tests : list TestDescription)
                         (ws : list return_type) :
  (failures tests ws <= List.length tests)%nat.
Proof.
  revert ws. induction tests as [|t rest IH]; intros [|x ws]; simpl; try lia.
  specialize (IH ws). destruct (passes t x); lia.
Qed.

Lemma report_length (tests : list TestDescription) (w : World) :
  List.length (report tests (witnesses tests w)) = List.length tests.
Proof.
  revert w. induction tests as [|t rest IH]; intros w; simpl; [reflexivity|].
  destruct (function (params t) w) as [witness w']. simpl. rewrite IH.
  reflexivity.
Qed.

Lemma Cases_call_spec (tests : list TestDescription) (w : World) :
  Z.of_nat (failures tests (witnesses tests w)) <= INT_MAX ->
  Cases_call tests w
  = Some (Z.of_nat (failures tests (witnesses tests w)),
          world_after tests w,
          report tests (witnesses tests w)).
Proof.
  intros Hmax. unfold Cases_call. rewrite loop_spec; simpl; try lia.
  reflexivity.
Qed.

(** The verdict of a report: whether it is a FAILURE, and the comment of
    its case. *)
Definition is_FAILURE (l : Line) : bool :=
  match l with
  | SUCCESS _ => false
  | FAILURE _ _ _ => true
  end.

Definition comment_of (l : Line) : string :=
  match l with
  | SUCCESS comment => comment
  | FAILURE comment _ _ => comment
  end.

Lemma report_comments (tests : list TestDescription) (w : World) :
  map comment_of (report tests (witnesses tests w)) = map comment tests.
Proof.
  revert w. induction tests as [|t rest IH]; intros w; simpl; [reflexivity|].
  destruct (function (params t) w) as [witness w']. simpl. rewrite IH.
  destruct (passes t witness); reflexivity.
Qed.

Lemma report_failures (tests : list TestDescription) (w : World) :
  List.length (filter is_FAILURE (report tests (witnesses tests w)))
  = failures tests (witnesses tests w).
Proof.
  revert w. induction tests as [|t rest IH]; intros w; simpl; [reflexivity|].
  destruct (function (params t) w) as [witness w']. simpl.
  destruct (passes t witness); simpl; rewrite IH; reflexivity.
Qed.

(** X12.  On a table of at most [INT_MAX] cases the [int] counter cannot
    overflow: with a function under test that returns on every case (as
    [function] does here; one that throws is not covered), the call
    returns, and its count is between 0 and the number of cases.  The
    verdicts reported are one for each case, in the order of the table and
    under the comment of the case, and the count is the number of FAILURE
    verdicts among them.  (A FAILURE verdict stands for the FAILURE line
    together with what [printDebugging] writes after it: the lines of the
    output are not counted.) *)
Theorem Cases_call_bounds (tests : list TestDescription) (w : World) :
  Z.of_nat (List.length tests) <= INT_MAX ->
  exists n w' out,
    Cases_call tests w = Some (n, w', out)
    /\ 0 <= n <= Z.of_nat (List.length tests)
    /\ map comment_of out = map comment tests
    /\ n = Z.of_nat (List.length (filter is_FAILURE out)).
Proof.
  intros Hmax.
  pose proof (failures_le_length tests (witnesses tests w)) as Hle.
  exists (Z.of_nat (failures tests (witnesses tests w))),
    (world_after tests w), (report tests (witnesses tests w)).
  split; [apply Cases_call_spec; lia|]. split; [lia|].
  split; [apply report_comments|].
  rewrite report_failures. reflexivity.
Qed.

Lemma witnesses_app (tests1 tests2 : list TestDescription) (w : World) :
  witnesses (tests1 ++ tests2) w
  = (witnesses tests1 w ++ witnesses tests2 (world_after tests1 w))%list.
Proof.
  revert w. induction tests1 as [|t rest IH]; intros w; simpl;
    [reflexivity|].
  unfold world_after. simpl.
  destruct (function (params t) w) as [witness w']. simpl.
  rewrite IH. reflexivity.
Qed.

Lemma failures_app (tests1 tests2 : list TestDescription)
                   (ws1 ws2 : list return_type) :
  List.length ws1 = List.length tests1 ->
  failures (tests1 ++ tests2) (ws1 ++ ws2)%list
  = (failures tests1 ws1 + failures tests2 ws2)%nat.
Proof.
  revert ws1. induction tests1 as [|t rest IH]; intros [|x ws1] Hlen;
    try discriminate; simpl; [reflexivity|].
  rewrite IH by (simpl in Hlen; lia). lia.
Qed.

Lemma report_app (tests1 tests2 : list TestDescription)
                 (ws1 ws2 : list return_type) :
  List.length ws1 = List.length tests1 ->
  report (tests1 ++ tests2) (ws1 ++ ws2)%list
  = (report tests1 ws1 ++ report tests2 ws2)%list.
Proof.
  revert ws1. induction tests1 as [|t rest IH]; intros [|x ws1] Hlen;
    try discriminate; simpl; [reflexivity|].
  rewrite IH by (simpl in Hlen; lia). reflexivity.
Qed.

(** X13.  Running a table made of two parts is running the first part and then
    the second in the state the first has left: the counts add up and the
    lines follow one another. *)
Theorem Cases_call_app (tests1 tests2 : list TestDescription) (w : World) :
  Z.of_nat (List.length (tests1 ++ tests2)) <= INT_MAX ->
  exists n1 w1 out1 n2 w2 out2,
    Cases_call tests1 w = Some (n1, w1, out1)
    /\ Cases_call tests2 w1 = Some (n2, w2, out2)
    /\ Cases_call (tests1 ++ tests2) w
       = Some (n1 + n2, w2, (out1 ++ out2)%list).
Proof.
  rewrite length_app. intros Hmax.
  pose proof (failures_le_length tests1 (witnesses tests1 w)) as H1.
  pose proof (failures_le_length tests2
                (witnesses tests2 (world_after tests1 w))) as H2.
  exists (Z.of_nat (failures tests1 (witnesses tests1 w))),
    (world_after tests1 w), (report tests1 (witnesses tests1 w)),
    (Z.of_nat (failures tests2 (witnesses tests2 (world_after tests1 w)))),
    (world_after tests2 (world_after tests1 w)),
    (report tests2 (witnesses tests2 (world_after tests1 w))).
  split; [apply Cases_call_spec; lia|].
  split; [apply Cases_call_spec; lia|].
  rewrite Cases_call_spec.
  - rewrite witnesses_app, failures_app, report_app
      by apply witnesses_length.
    unfold world_after. rewrite fold_left_app, Nat2Z.inj_add. reflexivity.
  - rewrite witnesses_app, failures_app by apply witnesses_length. lia.
Qed.

Section PureFunction.

(** A function under test that neither reads nor changes the state. *)
Variable f : args_type -> return_type.
Hypothesis function_pure : forall a w, function a w = (f a, w).

Definition fails (t : TestDescription) : bool :=
  negb (equal (f (params t)) (expected t)).

Lemma pure_witnesses (tests : list TestDescription) (w : World) :
  witnesses tests w = map (fun t => f (params t)) tests.
Proof.
  induction tests as [|t rest IH]; simpl; [reflexivity|].
  rewrite function_pure, IH. reflexivity.
Qed.

Lemma pure_failures (tests : list TestDescription) :
  failures tests (map (fun t => f (params t)) tests)
  = List.length (filter fails tests).
Proof.
  induction tests as [|t rest IH]; simpl; [reflexivity|].
  unfold fails at 1, passes.
  destruct (equal (f (params t)) (expected t)); simpl; rewrite IH;
    reflexivity.
Qed.

Lemma pure_world_after (tests : list TestDescription) (w : World) :
  world_after tests w = w.
Proof.
  unfold world_after. induction tests as [|t rest IH]; simpl;
    [reflexivity|].
  rewrite function_pure. exact IH.
Qed.

Lemma filter_length_Permutation (l l' : list TestDescription) :
  Permutation l l' ->
  List.length (filter fails l) = List.length (filter fails l').
Proof.
  induction 1 as [|x l l' _ IH|x y l|l l' l'' _ IH1 _ IH2]; simpl.
  - reflexivity.
  - destruct (fails x); simpl; rewrite IH; reflexivity.
  - destruct (fails x), (fails y); reflexivity.
  - congruence.
Qed.

(** X14.  For a function without side effects the count is the number of failing
    cases of the table, and does not depend on the order of the cases. *)
Theorem Cases_call_pure_order (tests tests' : list TestDescription)
                              (w : World) :
  Permutation tests tests' ->
  Z.of_nat (List.length tests) <= INT_MAX ->
  exists out out',
    Cases_call tests w
    = Some (Z.of_nat (List.length (filter fails tests)), w, out)
    /\ Cases_call tests' w
       = Some (Z.of_nat (List.length (filter fails tests)), w, out').
Proof.
  intros HP Hmax.
  pose proof (Permutation_length HP) as Hlen.
  pose proof (failures_le_length tests (witnesses tests w)) as H1.
  pose proof (failures_le_length tests' (witnesses tests' w)) as H2.
  exists (report tests (witnesses tests w)),
    (report tests' (witnesses tests' w)).
  rewrite !Cases_call_spec by lia.
  rewrite !pure_world_after, !pure_witnesses, !pure_failures.
  rewrite (filter_length_Permutation tests tests' HP).
  split; reflexivity.
Qed.

End PureFunction.

End TableTest.

(** A run on a table of two cases for the successor function, which also
    counts its calls in the program state. *)
Definition successor (n : Z) (calls : nat) : Z * nat := (n + 1, S calls).

Definition successor_table : list (TestDescription Z Z) :=
  [ {| comment := "one"; params := 1; expected := 2 |};
    {| comment := "two"; params := 2; expected := 4 |} ].

Lemma Cases_call_counts_failures_witness :
  Cases_call Z Z nat successor Z.eqb successor_table 0%nat
  = Some (1, 2%nat, [SUCCESS Z "one"; FAILURE Z "two" 3 4])
  /\ (1 = 0 <-> Forall2 (fun t witness => passes Z Z Z.eqb t witness = true)
                        successor_table [2; 3]).
Proof.
  apply (Cases_call_counts_failures Z Z nat successor Z.eqb successor_table
           0%nat).
  vm_compute. discriminate.
Defined.

Lemma Cases_call_bounds_witness :
  exists n w' out,
    Cases_call Z Z nat successor Z.eqb successor_table 0%nat
    = Some (n, w', out)
    /\ 0 <= n <= Z.of_nat (List.length successor_table)
    /\ map (comment_of Z) out = map (comment Z Z) successor_table
    /\ n = Z.of_nat (List.length (filter (is_FAILURE Z) out)).
Proof.
  apply (Cases_call_bounds Z Z nat successor Z.eqb successor_table 0%nat).
  vm_compute. discriminate.
Defined.

Lemma Cases_call_app_witness :
  exists n1 w1 out1 n2 w2 out2,
    Cases_call Z Z nat successor Z.eqb successor_table 0%nat
    = Some (n1, w1, out1)
    /\ Cases_call Z Z nat successor Z.eqb successor_table w1
       = Some (n2, w2, out2)
    /\ Cases_call Z Z nat successor Z.eqb
         (successor_table ++ successor_table) 0%nat
       = Some (n1 + n2, w2, (out1 ++ out2)%list).
Proof.
  apply (Cases_call_app Z Z nat successor Z.eqb successor_table
           successor_table 0%nat).
  vm_compute. discriminate.
Defined.

(** The doubling function, which leaves the state alone. *)
Definition double (n : Z) (w : unit) : Z * unit := (2 * n, w).

Definition double_table : list (TestDescription Z Z) :=
  [ {| comment := "two"; params := 2; expected := 4 |};
    {| comment := "three"; params := 3; expected := 7 |} ].

Lemma Cases_call_pure_order_witness :
  exists out out',
    Cases_call Z Z unit double Z.eqb double_table tt
    = Some (Z.of_nat
              (List.length
                 (filter (fails Z Z Z.eqb (fun n => 2 * n)) double_table)),
            tt, out)
    /\ Cases_call Z Z unit double Z.eqb (rev double_table) tt
       = Some (Z.of_nat
                 (List.length
                    (filter (fails Z Z Z.eqb (fun n => 2 * n)) double_table)),
               tt, out').
Proof.
  apply (Cases_call_pure_order Z Z unit double Z.eqb (fun n => 2 * n)).
  - reflexivity.
  - apply Permutation_rev.
  - vm_compute. discriminate.
Defined.

(** ** The C++17 harness (lines 26-57 of the first header)

    The same loop, with [operator !=] as its test and without the
    debugging output. *)
Section TableTest_cpp17.

Variables args_type return_type World : Type.
Variable function : args_type -> World -> return_type * World.
Variable equal : return_type -> return_type -> bool.
Variable different : return_type -> return_type -> bool.

Inductive Verdict : Type :=
| SUCCESS_line (comment : string)
| FAILURE_line (comment : string).

Record Run17 : Type :=
  { failureCount17 : Z; world17 : World; cout17 : list Verdict }.

Definition iteration17 (r : Run17)
                       (t : TestDescription args_type return_type)
  : option Run17 :=
  let (witness, w) := function (params _ _ t) (world17 r) in
  if different witness (expected _ _ t) then
    if failureCount17 r <? INT_MAX then
      Some {| failureCount17 := failureCount17 r + 1;
              world17 := w;
              cout17 := cout17 r ++ [FAILURE_line (comment _ _ t)] |}
    else None
  else
    Some {| failureCount17 := failureCount17 r;
            world17 := w;
            cout17 := cout17 r ++ [SUCCESS_line (comment _ _ t)] |}.

Fixpoint loop17 (r : Run17)
                (tests : list (TestDescription args_type return_type))
  : option Run17 :=
  match tests with
  | [] => Some r
  | t :: rest =>
      match iteration17 r t with
      | Some r' => loop17 r' rest
      | None => None
      end
  end.

Definition Cases_call17
    (tests : list (TestDescription args_type return_type)) (w : World)
  : option (Z * World * list Verdict) :=
  match loop17 {| failureCount17 := 0; world17 := w; cout17 := [] |} tests
  with
  | Some r => Some (failureCount17 r, world17 r, cout17 r)
  | None => None
  end.

(** The verdict that a line of the later harness carries. *)
Definition verdict (l : Line return_type) : Verdict :=
  match l with
  | SUCCESS _ c => SUCCESS_line c
  | FAILURE _ c _ _ => FAILURE_line c
  end.

Hypothesis different_is_not_equal :
  forall a b, different a b = negb (equal a b).

Lemma loops_agree (tests : list (TestDescription args_type return_type)) :
  forall (r17 : Run17) (r : Run return_type World),
    failureCount17 r17 = failureCount _ _ r ->
    world17 r17 = world _ _ r ->
    cout17 r17 = map verdict (cout _ _ r) ->
    match loop17 r17 tests,
          loop args_type return_type World function equal r tests with
    | Some s17, Some s =>
        failureCount17 s17 = failureCount _ _ s
        /\ world17 s17 = world _ _ s
        /\ cout17 s17 = map verdict (cout _ _ s)
    | None, None => True
    | _, _ => False
    end.
Proof.
  induction tests as [|t rest IH]; intros r17 r Hn Hw Hout.
  - simpl. auto.
  - simpl. unfold iteration17, iteration. rewrite Hw.
    destruct (function (params _ _ t) (world _ _ r)) as [witness w].
    rewrite different_is_not_equal, Hn.
    destruct (equal witness (expected _ _ t)); simpl.
    + apply IH; simpl; auto.
      rewrite Hout, map_app. reflexivity.
    + destruct (failureCount _ _ r <? INT_MAX); [|exact I].
      apply IH; simpl; auto.
      rewrite Hout, map_app. reflexivity.
Qed.

(** X15.  Where [!=] is the negation of [==], the two harnesses agree on every
    table: both have a result or neither has, the counts are equal, the
    function has been called alike, and the lines give the same verdicts in
    the same order. *)
Theorem harnesses_agree
    (tests : list (TestDescription args_type return_type)) (w : World) :
  match Cases_call17 tests w,
        Cases_call args_type return_type World function equal tests w with
  | Some (n17, w17, out17), Some (n, w', out) =>
      n17 = n /\ w17 = w' /\ out17 = map verdict out
  | None, None => True
  | _, _ => False
  end.
Proof.
  unfold Cases_call17, Cases_call.
  pose proof (loops_agree tests
                {| failureCount17 := 0; world17 := w; cout17 := [] |}
                {| failureCount := 0; world := w; cout := [] |}
                eq_refl eq_refl eq_refl) as H.
  destruct (loop17 _ tests) as [s17|];
    destruct (loop _ _ _ _ _ _ tests) as [s|]; exact H.
Qed.

End TableTest_cpp17.

Lemma harnesses_agree_witness :
  match Cases_call17 Z Z nat successor (fun a b => negb (Z.eqb a b))
          successor_table 0%nat,
        Cases_call Z Z nat successor Z.eqb successor_table 0%nat with
  | Some (n17, w17, out17), Some (n, w', out) =>
      n17 = n /\ w17 = w' /\ out17 = map (verdict Z) out
  | None, None => True
  | _, _ => False
  end.
Proof.
  apply (harnesses_agree Z Z nat successor Z.eqb
           (fun a b => negb (Z.eqb a b))).
  reflexivity.
Defined.

(** ** [printDebuggingForStrings] and [printDebugging] (lines 283-346) *)

(** How the printing ends: it returns what it wrote, [std::string::at]
    throws, or the [int] index overflows. *)
Inductive outcome (A : Type) : Type :=
| Done (a : A)
| Throws_out_of_range
| Undefined
| Out_of_fuel.

Arguments Done {A} a.
Arguments Throws_out_of_range {A}.
Arguments Undefined {A}.
Arguments Out_of_fuel {A}.

Definition and_then {A B : Type} (m : outcome A) (k : A -> outcome B)
  : outcome B :=
  match m with
  | Done a => k a
  | Throws_out_of_range => Throws_out_of_range
  | Undefined => Undefined
  | Out_of_fuel => Out_of_fuel
  end.

(** What [printDebuggingForStrings] writes: the warning about the sizes
    with [amount] in it, and the three lines about an index. *)
Inductive StringNote : Type :=
| SizesDiffer (amount : Z)
| MismatchAtIndex (i : Z) (witness expected : ascii).

(** [s.at( i )]. *)
Definition string_at (s : string) (i : Z) : outcome ascii :=
  match String.get (Z.to_nat i) s with
  | Some c => Done c
  | None => Throws_out_of_range
  end.

(** The [for] loop (lines 293-299), with its [int] index. *)
Fixpoint for_each_index (fuel : nat) (i amount : Z)
                        (witness expected : string)
  : outcome (list StringNote) :=
  if i <? amount then
    match fuel with
    | O => Out_of_fuel
    | S fuel' =>
        and_then (string_at witness i) (fun a =>
        and_then (string_at expected i) (fun b =>
        let lines :=
          if Ascii.eqb a b then [] else [MismatchAtIndex i a b] in
        if i <? INT_MAX then
          and_then (for_each_index fuel' (i + 1) amount witness expected)
            (fun rest => Done (lines ++ rest)%list)
        else Undefined))
    end
  else Done [].

(** [printDebuggingForStrings] (lines 283-300).  The loop runs [amount]
    times at most, and [amount] is no more than the witness's size. *)
Definition printDebuggingForStrings (witness expected : string)
  : outcome (list StringNote) :=
  let amount :=
    Z.min (Z.of_nat (String.length witness))
          (Z.of_nat (String.length expected)) in
  let warning :=
    if (String.length witness =? String.length expected)%nat then []
    else [SizesDiffer amount] in
  and_then
    (for_each_index (String.length witness) 0 amount witness expected)
    (fun rest => Done (warning ++ rest)%list).

(** The positions at which two strings differ, as far as both go. *)
Fixpoint differences (i : Z) (witness expected : string) : list StringNote :=
  match witness, expected with
  | String a witness', String b expected' =>
      ((if Ascii.eqb a b then [] else [MismatchAtIndex i a b])
       ++ differences (i + 1) witness' expected')%list
  | _, _ => []
  end.

Section printDebugging.

(** The elements of the two sequences, and their [operator ==]. *)
Variable A : Type.
Variable equal : A -> A -> bool.

(** What the sequence branch of [printDebugging] writes (lines 321-345):
    the warning with the two sizes, a line with the two indices of a
    mismatch, and the two closing lines that show the values. *)
Inductive SequenceNote : Type :=
| SequenceSizesDiffer (witness_size expected_size : nat)
| MismatchAt (witness_index expected_index : nat)
| Computed (witness : list A)
| Expected (expected : list A).

(** An iterator into a sequence: its distance from [begin], and the
    elements from it to [end]. *)
Definition iterator : Type := (nat * list A)%type.

Definition begin_ (v : list A) : iterator := (O, v).

Definition at_end (it : iterator) : bool :=
  match snd it with
  | [] => true
  | _ :: _ => false
  end.

Definition increment (it : iterator) : iterator :=
  (S (fst it), tl (snd it)).

(** [std::mismatch( first1, last1, first2, last2 )]. *)
Fixpoint mismatch (i1 : nat) (r1 : list A) (i2 : nat) (r2 : list A)
  : iterator * iterator :=
  match r1, r2 with
  | a :: r1', b :: r2' =>
      if equal a b then mismatch (S i1) r1' (S i2) r2'
      else ((i1, r1), (i2, r2))
  | _, _ => ((i1, r1), (i2, r2))
  end.

(** The [while] loop (lines 329-339). *)
Fixpoint while_mismatch (fuel : nat) (first : bool)
                        (next : iterator * iterator)
  : outcome (list SequenceNote) :=
  if negb (at_end (fst next)) && negb (at_end (snd next)) then
    match fuel with
    | O => Out_of_fuel
    | S fuel' =>
        let lines :=
          if first then []
          else [MismatchAt (fst (fst next)) (fst (snd next))] in
        let next :=
          if first then next
          else (increment (fst next), increment (snd next)) in
        let next :=
          mismatch (fst (fst next)) (snd (fst next))
                   (fst (snd next)) (snd (snd next)) in
        and_then (while_mismatch fuel' false next)
          (fun rest => Done (lines ++ rest)%list)
    end
  else Done [].

(** [printDebugging] on two sequences whose elements are no strings (lines
    319-345).  The loop body runs once, and then once more for every
    mismatch: no more than one time more than the witness is long. *)
Definition printDebugging_sequence (witness expected : list A)
  : outcome (list SequenceNote) :=
  let warning :=
    if (List.length witness =? List.length expected)%nat then []
    else [SequenceSizesDiffer (List.length witness) (List.length expected)]
  in
  and_then
    (while_mismatch (S (List.length witness)) true
       (begin_ witness, begin_ expected))
    (fun lines =>
       Done (warning ++ lines ++ [Computed witness; Expected expected])%list).

(** The positions at which two sequences differ, as far as both go. *)
Fixpoint mismatches (i1 : nat) (r1 : list A) (i2 : nat) (r2 : list A)
  : list SequenceNote :=
  match r1, r2 with
  | a :: r1', b :: r2' =>
      ((if equal a b then [] else [MismatchAt i1 i2])
       ++ mismatches (S i1) r1' (S i2) r2')%list
  | _, _ => []
  end.

End printDebugging.

(** *** Theorems about the two printers *)

Lemma get_after_prefix (p : string) (a : ascii) (rest : string) :
  String.get (String.length p) (p ++ String a rest) = Some a.
Proof.
  change (String.length p) with (0 + String.length p)%nat.
  rewrite <- (append_correct2 p (String a rest) 0). reflexivity.
Qed.

Lemma length_append (p q : string) :
  String.length (p ++ q) = (String.length p + String.length q)%nat.
Proof.
  induction p as [|c p IH]; simpl; [reflexivity|]. rewrite IH. reflexivity.
Qed.

Lemma append_assoc_one (p : string) (a : ascii) (rest : string) :
  (p ++ String a rest = (p ++ String a EmptyString) ++ rest)%string.
Proof.
  induction p as [|c p IH]; simpl; [reflexivity|]. rewrite IH. reflexivity.
Qed.

Lemma for_each_index_spec (w' : string) :
  forall (p q e' : string) (fuel : nat),
    String.length p = String.length q ->
    (Nat.min (String.length w') (String.length e') <= fuel)%nat ->
    Z.of_nat (String.length p)
    + Z.of_nat (Nat.min (String.length w') (String.length e')) <= INT_MAX ->
    for_each_index fuel (Z.of_nat (String.length p))
      (Z.of_nat (String.length p)
       + Z.of_nat (Nat.min (String.length w') (String.length e')))
      (p ++ w') (q ++ e')
    = Done (differences (Z.of_nat (String.length p)) w' e').
Proof.
  induction w' as [|a w'' IH]; intros p q e' fuel Hpq Hfuel Hmax.
  - simpl. rewrite Z.add_0_r.
    destruct fuel; simpl; rewrite Z.ltb_irrefl; reflexivity.
  - destruct e' as [|b e''].
    + simpl. rewrite Z.add_0_r.
      destruct fuel; simpl; rewrite Z.ltb_irrefl; reflexivity.
    + simpl String.length in *. simpl Nat.min in *.
      destruct fuel as [|fuel]; [lia|].
      cbn [for_each_index differences].
      assert (Hlt : (Z.of_nat (String.length p)
                     <? Z.of_nat (String.length p)
                        + Z.of_nat
                            (S (Nat.min (String.length w'')
                                  (String.length e'')))) = true)
        by (apply Z.ltb_lt; lia).
      rewrite Hlt. unfold string_at. rewrite Nat2Z.id.
      assert (Hq : String.get (String.length p) (q ++ String b e'') = Some b)
        by (rewrite Hpq; apply get_after_prefix).
      rewrite get_after_prefix, Hq.
      cbn [and_then].
      assert (Hint : (Z.of_nat (String.length p) <? INT_MAX) = true)
        by (apply Z.ltb_lt; lia).
      rewrite Hint.
      rewrite (append_assoc_one p a w''), (append_assoc_one q b e'').
      replace (Z.of_nat (String.length p) + 1)
        with (Z.of_nat (String.length (p ++ String a EmptyString)))
        by (rewrite length_append; simpl; lia).
      replace (Z.of_nat (String.length p)
               + Z.of_nat
                   (S (Nat.min (String.length w'') (String.length e''))))
        with (Z.of_nat (String.length (p ++ String a EmptyString))
              + Z.of_nat (Nat.min (String.length w'') (String.length e'')))
        by (rewrite length_append; simpl; lia).
      rewrite IH.
      * reflexivity.
      * rewrite !length_append. simpl. lia.
      * lia.
      * rewrite length_append. simpl. lia.
Qed.

Lemma differences_nil_iff (w : string) :
  forall (e : string) (i : Z),
    (differences i w e = [] /\ String.length w = String.length e)
    <-> w = e.
Proof.
  induction w as [|a w IH]; intros [|b e] i; simpl.
  - tauto.
  - split; [intros [_ H]; discriminate | discriminate].
  - split; [intros [_ H]; discriminate | discriminate].
  - destruct (Ascii.eqb a b) eqn:E; simpl.
    + apply Ascii.eqb_eq in E. subst b. split.
      * intros [Hd Hl]. f_equal. apply (IH e (i + 1)). split; [exact Hd|lia].
      * intros H. inversion H; subst e.
        destruct (proj2 (IH w (i + 1)) eq_refl) as [Hd Hl].
        split; [exact Hd | reflexivity].
    + apply Ascii.eqb_neq in E. split.
      * intros [H _]. discriminate.
      * intros H. inversion H. contradiction.
Qed.

(** X16.  [printDebuggingForStrings] returns for strings whose common length fits
    [int]: after the warning, if the sizes differ, it reports the positions
    at which the two strings differ within their common length, each once
    and in rising order.  It writes nothing exactly when the two strings are
    equal. *)
Theorem printDebuggingForStrings_reports_differences (witness expected : string) :
  Z.of_nat (Nat.min (String.length witness) (String.length expected))
    <= INT_MAX ->
  exists notes,
    printDebuggingForStrings witness expected = Done notes
    /\ notes
       = ((if (String.length witness =? String.length expected)%nat then []
           else [SizesDiffer
                   (Z.of_nat (Nat.min (String.length witness)
                                      (String.length expected)))])
          ++ differences 0 witness expected)%list
    /\ (notes = [] <-> witness = expected).
Proof.
  intros Hmax.
  pose proof (for_each_index_spec witness EmptyString EmptyString expected
                (String.length witness) eq_refl) as Hloop.
  simpl in Hloop.
  unfold printDebuggingForStrings.
  rewrite <- Nat2Z.inj_min. rewrite Hloop by lia. cbn [and_then].
  eexists. split; [reflexivity|]. split; [reflexivity|].
  rewrite <- (differences_nil_iff witness expected 0).
  destruct (String.length witness =? String.length expected)%nat eqn:E.
  - apply Nat.eqb_eq in E. simpl. tauto.
  - apply Nat.eqb_neq in E. simpl. split; [discriminate | tauto].
Qed.

Lemma printDebuggingForStrings_reports_differences_witness :
  exists notes,
    printDebuggingForStrings "kitten" "mitten!" = Done notes
    /\ notes
       = ((if (String.length "kitten" =? String.length "mitten!")%nat
           then []
           else [SizesDiffer
                   (Z.of_nat (Nat.min (String.length "kitten")
                                      (String.length "mitten!")))])
          ++ differences 0 "kitten" "mitten!")%list
    /\ (notes = [] <-> "kitten" = "mitten!").
Proof.
  apply (printDebuggingForStrings_reports_differences "kitten" "mitten!").
  vm_compute. discriminate.
Defined.

Section printDebugging_theorems.

Variable A : Type.
Variable equal : A -> A -> bool.

Lemma mismatch_spec (r1 : list A) :
  forall (r2 : list A) (i1 i2 : nat),
    mismatches A equal i1 r1 i2 r2
    = match snd (fst (mismatch A equal i1 r1 i2 r2)),
            snd (snd (mismatch A equal i1 r1 i2 r2)) with
      | _ :: r1', _ :: r2' =>
          MismatchAt A (fst (fst (mismatch A equal i1 r1 i2 r2)))
                       (fst (snd (mismatch A equal i1 r1 i2 r2)))
          :: mismatches A equal
               (S (fst (fst (mismatch A equal i1 r1 i2 r2)))) r1'
               (S (fst (snd (mismatch A equal i1 r1 i2 r2)))) r2'
      | _, _ => []
      end
    /\ (List.length (snd (fst (mismatch A equal i1 r1 i2 r2)))
        <= List.length r1)%nat.
Proof.
  induction r1 as [|a r1 IH]; intros [|b r2] i1 i2; simpl;
    try (split; [reflexivity|lia]).
  destruct (equal a b); simpl.
  - destruct (IH r2 (S i1) (S i2)) as [E L]. split; [exact E|lia].
  - split; [reflexivity|lia].
Qed.

Lemma while_mismatch_at_end (fuel : nat) (first : bool)
                            (next : iterator A * iterator A) :
  at_end A (fst next) = true \/ at_end A (snd next) = true ->
  while_mismatch A equal fuel first next = Done [].
Proof.
  intros H.
  assert (E : negb (at_end A (fst next)) && negb (at_end A (snd next))
              = false)
    by (destruct H as [-> | ->]; simpl;
        [reflexivity | apply andb_false_r]).
  destruct fuel; simpl; rewrite E; reflexivity.
Qed.

Lemma while_mismatch_from_mismatch (fuel : nat) :
  forall (i1 : nat) (a : A) (r1 : list A) (i2 : nat) (b : A) (r2 : list A),
    (List.length r1 < fuel)%nat ->
    while_mismatch A equal fuel false ((i1, a :: r1), (i2, b :: r2))
    = Done (MismatchAt A i1 i2 :: mismatches A equal (S i1) r1 (S i2) r2).
Proof.
  induction fuel as [|fuel IH]; intros i1 a r1 i2 b r2 Hfuel; [lia|].
  cbn [while_mismatch at_end fst snd negb andb increment tl].
  destruct (mismatch_spec r1 r2 (S i1) (S i2)) as [E L]. rewrite E.
  destruct (mismatch A equal (S i1) r1 (S i2) r2)
    as [[k1 s1] [k2 s2]] eqn:Em.
  cbn [fst snd] in *.
  destruct s1 as [|a' s1].
  - rewrite while_mismatch_at_end by (left; reflexivity). reflexivity.
  - destruct s2 as [|b' s2].
    + rewrite while_mismatch_at_end by (right; reflexivity). reflexivity.
    + rewrite IH by (simpl in L; lia). reflexivity.
Qed.

Lemma while_mismatch_from_begin (fuel : nat) (witness expected : list A) :
  (List.length witness <= fuel)%nat ->
  while_mismatch A equal (S fuel) true (begin_ A witness, begin_ A expected)
  = Done (mismatches A equal 0 witness 0 expected).
Proof.
  intros Hfuel. unfold begin_.
  destruct witness as [|a w]; [reflexivity|].
  destruct expected as [|b e]; [reflexivity|].
  cbn [while_mismatch at_end fst snd negb andb].
  destruct (mismatch_spec (a :: w) (b :: e) 0 0) as [E L]. rewrite E.
  destruct (mismatch A equal 0 (a :: w) 0 (b :: e))
    as [[k1 s1] [k2 s2]] eqn:Em.
  cbn [fst snd] in *.
  destruct s1 as [|a' s1].
  - rewrite while_mismatch_at_end by (left; reflexivity). reflexivity.
  - destruct s2 as [|b' s2].
    + rewrite while_mismatch_at_end by (right; reflexivity). reflexivity.
    + rewrite while_mismatch_from_mismatch by (simpl in L, Hfuel; lia).
      reflexivity.
Qed.

Lemma mismatches_In (r1 : list A) :
  forall (r2 : list A) (k1 k2 i j : nat),
    In (MismatchAt A i j) (mismatches A equal k1 r1 k2 r2)
    <-> exists n a b,
          i = (k1 + n)%nat /\ j = (k2 + n)%nat
          /\ nth_error r1 n = Some a /\ nth_error r2 n = Some b
          /\ equal a b = false.
Proof.
  induction r1 as [|a r1 IH]; intros [|b r2] k1 k2 i j; simpl.
  - split; [tauto|]. intros [[|n] [a [b H]]]; simpl in H;
      destruct H as [_ [_ [H _]]]; discriminate.
  - split; [tauto|]. intros [[|n] [a [b' H]]]; simpl in H;
      destruct H as [_ [_ [H _]]]; discriminate.
  - split; [tauto|]. intros [[|n] [a' [b H]]]; simpl in H;
      destruct H as [_ [_ [_ [H _]]]]; discriminate.
  - rewrite in_app_iff, IH. split.
    + intros [H|[n [a' [b' [-> [-> [H1 [H2 H3]]]]]]]].
      * destruct (equal a b) eqn:E; simpl in H; [tauto|].
        destruct H as [H|[]]. inversion H; subst.
        exists 0%nat, a, b. repeat split; auto; lia.
      * exists (S n), a', b'. repeat split; auto; lia.
    + intros [[|n] [a' [b' [-> [-> [H1 [H2 H3]]]]]]]; simpl in H1, H2.
      * inversion H1; inversion H2; subst. left. rewrite H3.
        left. f_equal; lia.
      * right. exists n, a', b'. repeat split; auto; lia.
Qed.

(** X17.  The sequence branch of [printDebugging] always returns.  Between the
    size warning and the two closing lines, its [while] loop over
    [std::mismatch] reports one line for each position, within the common
    length, at which the two sequences differ: with the same index on both
    sides, each once, in rising order. *)
Theorem printDebugging_sequence_reports_mismatches
        (witness expected : list A) :
  printDebugging_sequence A equal witness expected
  = Done ((if (List.length witness =? List.length expected)%nat then []
           else [SequenceSizesDiffer A (List.length witness)
                   (List.length expected)])
          ++ mismatches A equal 0 witness 0 expected
          ++ [Computed A witness; Expected A expected])%list
  /\ forall i j,
       In (MismatchAt A i j) (mismatches A equal 0 witness 0 expected)
       <-> i = j
           /\ exists a b,
                nth_error witness i = Some a /\ nth_error expected i = Some b
                /\ equal a b = false.
Proof.
  split.
  - unfold printDebugging_sequence.
    rewrite while_mismatch_from_begin by lia. reflexivity.
  - intros i j. rewrite mismatches_In. split.
    + intros [n [a [b [-> [-> H]]]]]. split; [reflexivity|].
      exists a, b. exact H.
    + intros [-> [a [b H]]]. exists j, a, b. repeat split; tauto.
Qed.

End printDebugging_theorems.

End table_test.

(* ================================================================== *)
(** * The console helper : terminal modes and the screen size          *)
(* ================================================================== *)

Module console.

Local Open Scope Z_scope.

(** [enum ConsoleMode] (lines 221-224). *)
Inductive ConsoleMode : Type := cooked | raw | noblock.

(** [struct termios] of <termios.h>: four [tcflag_t] words, 32 bits each and
    unsigned, and the control characters [c_cc]. *)
Record termios : Type :=
  { c_iflag : Z; c_oflag : Z; c_cflag : Z; c_lflag : Z; c_cc : list Z }.

(** [struct winsize] of <sys/ioctl.h>. *)
Record winsize : Type :=
  { ws_row : Z; ws_col : Z; ws_xpixel : Z; ws_ypixel : Z }.

(** [ScreenSize] is declared in Console.h; the sources at hand use it as a
    pair built from [{ rows, columns }] (lines 102, 433, 450, 452). *)
Record ScreenSize : Type := { rows : Z; columns : Z }.

(** The flag and index macros of <termios.h> that [setRawModeWithMin]
    names. *)
Record termios_h : Type :=
  { BRKINT : Z; ICRNL : Z; INPCK : Z; ISTRIP : Z; IXON : Z;
    OPOST : Z; CS8 : Z;
    ECHO : Z; ICANON : Z; IEXTEN : Z; ISIG : Z;
    VMIN : nat; VTIME : nat;
    TCSAFLUSH : Z }.

(** Their values on Linux. *)
Definition linux_termios_h : termios_h :=
  {| BRKINT := 2; ICRNL := 256; INPCK := 16; ISTRIP := 32; IXON := 1024;
     OPOST := 1; CS8 := 48;
     ECHO := 8; ICANON := 2; IEXTEN := 32768; ISIG := 1;
     VMIN := 6; VTIME := 5;
     TCSAFLUSH := 2 |}.

(** The exceptions of the translation unit (lines 253-261), and those of the
    standard library it also throws. *)
Inductive exception : Type :=
| BadScreenStateError
| UnknownScreenError
| runtime_error (what : string).

(** How a call ends: it returns, it throws, or its behaviour is undefined
    ([top()] and [pop()] of an empty [std::stack]). *)
Inductive outcome (A : Type) : Type :=
| Return (a : A)
| Throw (e : exception)
| Undefined.

Arguments Return {A} a.
Arguments Throw {A} e.
Arguments Undefined {A}.

(** [struct Console::Impl] (lines 227-241).  [stream] holds what was written
    through the [filebuf]. *)
Record Impl : Type :=
  { fd : Z;
    stream : string;
    modeStack : list (termios * ConsoleMode);
    mode : ConsoleMode;
    cachedScreenWidth : option Z }.

(** [Impl( const int fd )]: the default member initialisers. *)
Definition new_Impl (fd : Z) : Impl :=
  {| fd := fd; stream := ""; modeStack := []; mode := cooked;
     cachedScreenWidth := None |}.

Definition unsigned_int (z : Z) : Z := z mod 2 ^ 32.
Definition cc_t (z : Z) : Z := z mod 2 ^ 8.

(** [a[ i ]= v] on an array. *)
Fixpoint store (a : list Z) (i : nat) (v : Z) : list Z :=
  match a, i with
  | [], _ => []
  | _ :: rest, O => v :: rest
  | x :: rest, S i' => x :: store rest i' v
  end.

(** The [!] of C++ on an [int]. *)
Definition logical_not (z : Z) : Z := if z =? 0 then 1 else 0.

Section Console.

(** The operating system: its state, and the four calls the code makes.
    [ioctl_TIOCGWINSZ] and [tcgetattr] get the caller's structure as it is
    before the call and return the error code with the structure after it;
    [tcsetattr] returns the error code and the new state of the system. *)
Variable OS : Type.
Variable isatty : OS -> Z -> Z.
Variable ioctl_TIOCGWINSZ : OS -> Z -> winsize -> Z * winsize.
Variable tcgetattr : OS -> Z -> termios -> Z * termios.
Variable tcsetattr : OS -> Z -> Z -> termios -> Z * OS.
Variable h : termios_h.

(** A local variable without initialiser holds whatever the stack held.  The
    section names one such content, and its theorems hold for every one. *)
Variable indeterminate_termios : termios.
Variable indeterminate_winsize : winsize.

(** A member function of [Console] runs on the [Impl] and on the system. *)
Definition M (A : Type) : Type := Impl -> OS -> outcome A * Impl * OS.

Definition ret {A : Type} (a : A) : M A := fun c os => (Return a, c, os).

Definition throw {A : Type} (e : exception) : M A :=
  fun c os => (Throw e, c, os).

Definition undefined {A : Type} : M A := fun c os => (Undefined, c, os).

Definition bind {A B : Type} (m : M A) (k : A -> M B) : M B :=
  fun c os =>
    match m c os with
    | (Return a, c', os') => k a c' os'
    | (Throw e, c', os') => (Throw e, c', os')
    | (Undefined, c', os') => (Undefined, c', os')
    end.

Definition pimpl : M Impl := fun c os => (Return c, c, os).

Definition put (c' : Impl) : M unit := fun _ os => (Return tt, c', os).

Definition syscall {A : Type} (call : OS -> A * OS) : M A :=
  fun c os => let (a, os') := call os in (Return a, c, os').

Notation "x <- m ;; k" := (bind m (fun x => k))
  (at level 61, m at next level, right associativity).
Notation "m ;;; k" := (bind m (fun _ => k))
  (at level 61, right associativity).


(** [setRawModeWithMin] (lines 304-322).  [next] is never initialised from
    [now], and the fourth flag word is masked with the logical [!]. *)
Definition setRawModeWithMin (fd : Z) (min : Z) : M termios :=
  let next := indeterminate_termios in
  got <- syscall (fun os => (tcgetattr os fd indeterminate_termios, os)) ;;
  let now := snd got in
  if fst got =? -1 then throw UnknownScreenError
  else
    let next :=
      {| c_iflag :=
           Z.land (c_iflag next)
             (unsigned_int
                (Z.lnot (Z.lor (BRKINT h)
                           (Z.lor (ICRNL h)
                              (Z.lor (INPCK h)
                                 (Z.lor (ISTRIP h) (IXON h)))))));
         c_oflag := Z.land (c_oflag next) (unsigned_int (Z.lnot (OPOST h)));
         c_cflag := Z.lor (c_cflag next) (CS8 h);
         c_lflag :=
           Z.land (c_lflag next)
             (logical_not
                (Z.lor (ECHO h)
                   (Z.lor (ICANON h) (Z.lor (IEXTEN h) (ISIG h)))));
         c_cc := store (store (c_cc next) (VMIN h) (cc_t min)) (VTIME h) 0 |}
    in
    rc <- syscall (fun os => tcsetattr os fd (TCSAFLUSH h) next) ;;
    if negb (rc =? 0) then throw UnknownScreenError
    else ret now.


(** [Console::setRaw] (lines 325-331). *)
Definition setRaw : M unit :=
  c <- pimpl ;;
  old <- setRawModeWithMin (fd c) 1 ;;
  c <- pimpl ;;
  put {| fd := fd c; stream := stream c;
         modeStack := (old, mode c) :: modeStack c;
         mode := mode c; cachedScreenWidth := cachedScreenWidth c |} ;;;
  c <- pimpl ;;
  put {| fd := fd c; stream := stream c; modeStack := modeStack c;
         mode := raw; cachedScreenWidth := cachedScreenWidth c |}.

(** [Console::setNoblock] (lines 333-339); it records [raw] as well. *)
Definition setNoblock : M unit :=
  c <- pimpl ;;
  old <- setRawModeWithMin (fd c) 0 ;;
  c <- pimpl ;;
  put {| fd := fd c; stream := stream c;
         modeStack := (old, mode c) :: modeStack c;
         mode := mode c; cachedScreenWidth := cachedScreenWidth c |} ;;;
  c <- pimpl ;;
  put {| fd := fd c; stream := stream c; modeStack := modeStack c;
         mode := raw; cachedScreenWidth := cachedScreenWidth c |}.

(** [modeStack.top()]. *)
Definition top : M (termios * ConsoleMode) :=
  c <- pimpl ;;
  match modeStack c with
  | t :: _ => ret t
  | [] => undefined
  end.

(** [modeStack.pop()]. *)
Definition pop : M unit :=
  c <- pimpl ;;
  match modeStack c with
  | _ :: rest =>
      put {| fd := fd c; stream := stream c; modeStack := rest;
             mode := mode c; cachedScreenWidth := cachedScreenWidth c |}
  | [] => undefined
  end.

(** [Console::popTermMode] (lines 294-300); the result of [tcsetattr] is
    dropped. *)
Definition popTermMode : M unit :=
  c <- pimpl ;;
  t <- top ;;
  syscall (fun os => tcsetattr os (fd c) (TCSAFLUSH h) (fst t)) ;;;
  t <- top ;;
  c <- pimpl ;;
  put {| fd := fd c; stream := stream c; modeStack := modeStack c;
         mode := snd t; cachedScreenWidth := cachedScreenWidth c |} ;;;
  pop.

(** The [try] block of [Console::getScreenSize] (lines 443-450). *)
Definition getScreenSize_try : M ScreenSize :=
  c <- pimpl ;;
  tty <- syscall (fun os => (isatty os (fd c), os)) ;;
  if tty =? 0 then throw UnknownScreenError
  else
    c <- pimpl ;;
    got <- syscall (fun os =>
                      (ioctl_TIOCGWINSZ os (fd c) indeterminate_winsize, os)) ;;
    let ec := fst got in
    let ws := snd got in
    if (ec =? -1) || (ws_col ws =? 0) then throw UnknownScreenError
    else ret {| rows := ws_row ws; columns := ws_col ws |}.

(** [try { ... } catch( const UnknownScreenError & ) { ... }]: the handler
    takes that exception and lets any other pass. *)
Definition catch_UnknownScreenError {A : Type} (body : M A) (handler : M A)
  : M A :=
  fun c os =>
    match body c os with
    | (Throw UnknownScreenError, c', os') => handler c' os'
    | other => other
    end.

(** [Console::getScreenSize] (lines 439-452). *)
Definition getScreenSize : M ScreenSize :=
  catch_UnknownScreenError getScreenSize_try
    (ret {| rows := 24; columns := 80 |}).

(** [Console::getScreenWidth] (lines 428-437). *)
Definition getScreenWidth : M Z :=
  c <- pimpl ;;
  (match cachedScreenWidth c with
   | Some _ => ret tt
   | None =>
       size <- getScreenSize ;;
       c <- pimpl ;;
       put {| fd := fd c; stream := stream c; modeStack := modeStack c;
              mode := mode c; cachedScreenWidth := Some (columns size) |}
   end) ;;;
  c <- pimpl ;;
  match cachedScreenWidth c with
  | Some w => ret w
  | None => undefined
  end.

(** ** Theorems *)

Lemma Impl_eta (c : Impl) :
  {| fd := fd c; stream := stream c; modeStack := modeStack c;
     mode := mode c; cachedScreenWidth := cachedScreenWidth c |} = c.
Proof.
  destruct c; reflexivity.
Qed.

(** C8.  [getScreenSize] always returns: the fallback 24 x 80 when the
    descriptor is no tty, when the ioctl fails or when it reports zero
    columns, and the rows and columns of the ioctl otherwise.  It changes
    neither the console nor the system. *)
Theorem getScreenSize_returns (c : Impl) (os : OS) :
  let ec := fst (ioctl_TIOCGWINSZ os (fd c) indeterminate_winsize) in
  let ws := snd (ioctl_TIOCGWINSZ os (fd c) indeterminate_winsize) in
  getScreenSize c os
  = (Return (if (isatty os (fd c) =? 0) || (ec =? -1) || (ws_col ws =? 0)
             then {| rows := 24; columns := 80 |}
             else {| rows := ws_row ws; columns := ws_col ws |}),
     c, os).
Proof.
  unfold getScreenSize, catch_UnknownScreenError, getScreenSize_try, bind,
    pimpl, syscall, throw, ret.
  cbn zeta.
  destruct (isatty os (fd c) =? 0); [reflexivity|].
  cbn [orb].
  destruct (ioctl_TIOCGWINSZ os (fd c) indeterminate_winsize) as [ec ws].
  cbn [fst snd].
  destruct ((ec =? -1) || (ws_col ws =? 0)); reflexivity.
Qed.






(** ** Further properties of the mode stack and of the cached width *)

(** A caller's sequence of mode calls; it ends at the first call that does
    not return. *)
Inductive Call : Type := call_setRaw | call_setNoblock | call_popTermMode.

Definition call (k : Call) : M unit :=
  match k with
  | call_setRaw => setRaw
  | call_setNoblock => setNoblock
  | call_popTermMode => popTermMode
  end.

Fixpoint calls (ks : list Call) : M unit :=
  match ks with
  | [] => ret tt
  | k :: rest => call k ;;; calls rest
  end.












(** The [Impl] with a cached width. *)
Definition with_cachedScreenWidth (c : Impl) (w : Z) : Impl :=
  {| fd := fd c; stream := stream c; modeStack := modeStack c;
     mode := mode c; cachedScreenWidth := Some w |}.

Lemma getScreenSize_total (c : Impl) (os : OS) :
  exists size, getScreenSize c os = (Return size, c, os).
Proof.
  unfold getScreenSize, catch_UnknownScreenError, getScreenSize_try, bind,
    pimpl, syscall, throw, ret.
  cbn zeta.
  destruct (isatty os (fd c) =? 0); [eexists; reflexivity|].
  destruct (ioctl_TIOCGWINSZ os (fd c) indeterminate_winsize) as [ec ws].
  cbn [fst snd].
  destruct ((ec =? -1) || (ws_col ws =? 0)); eexists; reflexivity.
Qed.

(** X20.  [getScreenWidth] always returns.  The first call caches the columns of
    [getScreenSize]; from then on every call returns the cached width,
    whatever the system reports by then. *)
Theorem getScreenWidth_is_cached (c : Impl) (os : OS) :
  exists w,
    getScreenWidth c os = (Return w, with_cachedScreenWidth c w, os)
    /\ (forall v, cachedScreenWidth c = Some v -> w = v)
    /\ (cachedScreenWidth c = None ->
        exists size,
          getScreenSize c os = (Return size, c, os) /\ w = columns size)
    /\ forall os',
         getScreenWidth (with_cachedScreenWidth c w) os'
         = (Return w, with_cachedScreenWidth c w, os').
Proof.
  destruct (cachedScreenWidth c) as [v|] eqn:E.
  - exists v. repeat split.
    + unfold getScreenWidth, bind, pimpl, ret. rewrite E. cbn. rewrite E.
      unfold with_cachedScreenWidth. rewrite <- E, Impl_eta. reflexivity.
    + intros v' Hv. congruence.
    + discriminate.
  - destruct (getScreenSize_total c os) as [size Hsize].
    exists (columns size). repeat split.
    + unfold getScreenWidth, bind, pimpl, put, ret. rewrite E, Hsize.
      reflexivity.
    + discriminate.
    + intros _. exists size. split; [exact Hsize | reflexivity].
Qed.

(** ** The environment, the screen width and the styles (lines 42-218) *)

(** [getenv], with [None] for the null pointer;
    [boost::lexical_cast< int >], with [None] where it throws
    [bad_lexical_cast]; and the value of [storage::applicationName]. *)
Variable getenv : string -> option string.
Variable lexical_cast_int : string -> option Z.
Variable applicationName : string.

Definition screenWidthEnv : string := applicationName ++ "_SCREEN_WIDTH".
Definition screenWidthEnvLimit : string :=
  applicationName ++ "_SCREEN_WIDTH_LIMIT".
Definition disableColorsEnv : string :=
  applicationName ++ "_DISABLE_COLOR_TEXT".
Definition colorsEnv : string := applicationName ++ "_COLORS".

(** [C::defaultScreenWidthLimit]. *)
Definition defaultScreenWidthLimit : Z := 100.

(** [getEnvOrDefault] (lines 88-98): the [catch] drops the
    [bad_lexical_cast]. *)
Definition getEnvOrDefault (env : string) (d : Z) : Z :=
  match getenv env with
  | Some value =>
      match lexical_cast_int value with
      | Some n => n
      | None => d
      end
  | None => d
  end.

(** [Console::main] (lines 462-467), on [storage::console]: the console of
    descriptor 1 is made at the first call. *)
Definition Console_main (console : option Impl) : Impl * option Impl :=
  match console with
  | Some c => (c, console)
  | None => (new_Impl 1, Some (new_Impl 1))
  end.

(** The initialiser of the namespace's [cachedScreenWidth] (lines
    100-104). *)
Definition initial_cachedScreenWidth (console : option Impl) (os : OS)
  : outcome Z :=
  match getScreenSize (fst (Console_main console)) os with
  | (Return size, _, _) =>
      let underlying := getEnvOrDefault screenWidthEnv (columns size) in
      Return (Z.min underlying
                (getEnvOrDefault screenWidthEnvLimit
                   defaultScreenWidthLimit))
  | (Throw e, _, _) => Throw e
  | (Undefined, _, _) => Undefined
  end.

(** [ColorState], the [Enum] of "always", "never" and "auto". *)
Inductive ColorState : Type := always | never | auto.

(** [Style] and [SGR_String] are declared in Console.h.  The sources at
    hand build a [Style] from a name and read its [name] (lines 133, 168,
    187), and build an [SGR_String] from a string, or from nothing, and
    read its [code] (lines 133, 171, 195, 369-371).  The map of the styles
    is taken to order them by their names. *)
Record Style : Type := { name : string }.
Record SGR_String : Type := { code : string }.

Definition Style_eqb (a b : Style) : bool := String.eqb (name a) (name b).

(** [colorVariables()], a [std::map< Style, SGR_String >]: [find_style] is
    its lookup, [insert] its member of that name, which leaves a key that
    is present alone. *)
Definition StyleMap : Type := list (Style * SGR_String).

Fixpoint find_style (m : StyleMap) (s : Style) : option SGR_String :=
  match m with
  | [] => None
  | (k, v) :: rest => if Style_eqb s k then Some v else find_style rest s
  end.

Definition contains (m : StyleMap) (s : Style) : bool :=
  match find_style m s with
  | Some _ => true
  | None => false
  end.

Definition insert (m : StyleMap) (s : Style) (v : SGR_String) : StyleMap :=
  if contains m s then m else (s, v) :: m.

(** [colorEnabled] (lines 109-119), on the optional [colorState].  Without
    a state it returns [getenv( ... )], the pointer, as a [bool]. *)
Definition colorEnabled (colorState : option ColorState) (os : OS) : bool :=
  match colorState with
  | None =>
      match getenv disableColorsEnv with
      | Some _ => true
      | None => false
      end
  | Some never => false
  | Some always => true
  | Some auto => negb (isatty os 1 =? 0)
  end.

(** The escape character, ["\e"]. *)
Definition ESC : ascii := ascii_of_nat 27.

(** A [std::ostream] is known by the text written to it.  [csi] (lines
    176-180) writes the escape character. *)
Definition csi (os_ : string) : string := os_ ++ String ESC EmptyString.

(** [sendSGR] (lines 192-196). *)
Definition sendSGR (os_ : string) (style : SGR_String) : string :=
  csi os_ ++ code style ++ "m".

(** [resetTextEffects] (line 369) returns [{}], an [SGR_String] made from
    nothing: its code is the empty string. *)
Definition resetTextEffects : SGR_String := {| code := "" |}.

(** [operator <<] for a [Style] (lines 198-207). *)
Definition write_Style (m : StyleMap) (colorState : option ColorState)
                       (os : OS) (os_ : string) (s : Style) : string :=
  if colorEnabled colorState os && contains m s then
    match find_style m s with
    | Some sgr => sendSGR os_ sgr
    | None => os_
    end
  else os_.

(** [operator <<] for [resetStyle] (lines 209-218).  Its test is
    [if( colorEnabled )], the function and not a call of it: a function's
    address is never null. *)
Definition write_resetStyle (os_ : string) : string :=
  let colorEnabled_is_not_null := true in
  if colorEnabled_is_not_null then sendSGR os_ resetTextEffects else os_.

(** [createStyle] (lines 183-190), on the map of the styles. *)
Definition createStyle (name_ : string) (sgr : SGR_String) (m : StyleMap)
  : outcome Style * StyleMap :=
  if String.eqb name_ "reset"
  then (Throw (runtime_error "The `reset` style name is reserved."), m)
  else
    let style := {| name := name_ |} in
    (Return style, insert m style sgr).

(** *** Theorems *)

(** X21.  The width for word wrapping is always there, and never more than the
    limit: the number in the limit variable, or 100 without one.  With
    neither variable set and a main console that is no tty, it is 80. *)
Theorem screen_width_is_limited (console : option Impl) (os : OS) :
  exists w,
    initial_cachedScreenWidth console os = Return w
    /\ w <= getEnvOrDefault screenWidthEnvLimit defaultScreenWidthLimit
    /\ (getenv screenWidthEnvLimit = None -> w <= 100)
    /\ (getenv screenWidthEnv = None ->
        getenv screenWidthEnvLimit = None ->
        isatty os (fd (fst (Console_main console))) = 0 ->
        w = 80).
Proof.
  unfold initial_cachedScreenWidth.
  destruct (getScreenSize_total (fst (Console_main console)) os)
    as [size Hsize].
  pose proof Hsize as Hsize'.
  rewrite Hsize. eexists. split; [reflexivity|]. split; [lia|]. split.
  - intros Hlimit. unfold getEnvOrDefault at 2. rewrite Hlimit.
    unfold defaultScreenWidthLimit. lia.
  - intros Hwidth Hlimit Htty. unfold getEnvOrDefault.
    rewrite Hwidth, Hlimit.
    unfold getScreenSize, catch_UnknownScreenError, getScreenSize_try, bind,
      pimpl, syscall, throw, ret in Hsize'.
    cbn zeta in Hsize'. rewrite Htty in Hsize'. cbn in Hsize'.
    inversion Hsize'. subst size. reflexivity.
Qed.

Lemma string_append_assoc (a b c : string) :
  ((a ++ b) ++ c = a ++ (b ++ c))%string.
Proof.
  induction a as [|x a IH]; simpl; [reflexivity|]. rewrite IH. reflexivity.
Qed.

Lemma find_style_insert (m : StyleMap) (s : Style) (v : SGR_String) :
  find_style (insert m s v) s
  = Some (match find_style m s with
          | Some old => old
          | None => v
          end).
Proof.
  unfold insert, contains.
  destruct (find_style m s) as [old|] eqn:E.
  - exact E.
  - simpl. unfold Style_eqb. rewrite String.eqb_refl. reflexivity.
Qed.

(** X22.  [createStyle] refuses the name "reset" and leaves the map alone.  For
    any other name it returns the style, and writing that style with
    colours enabled sends the SGR code registered for it: the code given,
    or, when the name was registered before, the code it already had. *)
Theorem createStyle_then_write (name_ : string) (sgr : SGR_String)
        (m : StyleMap) (colorState : option ColorState) (os : OS)
        (os_ : string) :
  createStyle "reset" sgr m
  = (Throw (runtime_error "The `reset` style name is reserved."), m)
  /\ (name_ <> "reset" ->
      colorEnabled colorState os = true ->
      exists style,
        fst (createStyle name_ sgr m) = Return style
        /\ name style = name_
        /\ write_Style (snd (createStyle name_ sgr m)) colorState os os_
             style
           = os_ ++ String ESC EmptyString
             ++ code (match find_style m {| name := name_ |} with
                      | Some old => old
                      | None => sgr
                      end)
             ++ "m").
Proof.
  split; [reflexivity|].
  intros Hname Hcolor. unfold createStyle.
  destruct (String.eqb name_ "reset") eqn:E;
    [apply String.eqb_eq in E; contradiction|].
  exists {| name := name_ |}. cbn [fst snd]. repeat split.
  unfold write_Style, contains. rewrite Hcolor, find_style_insert.
  cbn [andb]. unfold sendSGR, csi.
  rewrite !string_append_assoc. reflexivity.
Qed.

(** X23.  With colours disabled, writing a style writes nothing; writing
    [resetStyle] sends the reset sequence all the same, whatever the colour
    state. *)
Theorem resetStyle_is_always_written (m : StyleMap)
        (colorState : option ColorState) (os : OS) (os_ : string)
        (s : Style) :
  write_resetStyle os_ = os_ ++ String ESC "m"
  /\ (colorEnabled colorState os = false ->
      write_Style m colorState os os_ s = os_
      /\ write_resetStyle (write_Style m colorState os os_ s)
         = os_ ++ String ESC "m").
Proof.
  assert (R : forall t, write_resetStyle t = t ++ String ESC "m").
  { intros t. unfold write_resetStyle, sendSGR, csi, resetTextEffects.
    cbn [code]. rewrite string_append_assoc. reflexivity. }
  split; [apply R|].
  intros Hcolor.
  assert (W : write_Style m colorState os os_ s = os_)
    by (unfold write_Style; rewrite Hcolor; reflexivity).
  split; [exact W|]. rewrite W. apply R.
Qed.

(** X24.  Without a colour option, a registered style is written exactly when
    the variable [<application>_DISABLE_COLOR_TEXT] is set. *)
Theorem style_follows_the_disable_variable (m : StyleMap) (os : OS)
        (os_ : string) (s : Style) (sgr : SGR_String) :
  find_style m s = Some sgr ->
  (getenv disableColorsEnv = None -> write_Style m None os os_ s = os_)
  /\ (forall value,
         getenv disableColorsEnv = Some value ->
         write_Style m None os os_ s
         = os_ ++ String ESC EmptyString ++ code sgr ++ "m").
Proof.
  intros Hfind. unfold write_Style, colorEnabled, contains. rewrite Hfind.
  split.
  - intros ->. reflexivity.
  - intros value ->. cbn [andb]. unfold sendSGR, csi.
    rewrite !string_append_assoc. reflexivity.
Qed.






(** ** The cursor calls (lines 288-292 and 341-367) *)

(** [os << n] for an integer: its decimal numeral. *)
Definition decimal (z : Z) : string :=
  DecimalString.NilZero.string_of_int (Z.to_int z).

(** [Console::csi()] returns the stream of the [Impl], and writes nothing
    itself; [csi() << text] therefore appends [text] to the stream. *)
Definition Console_csi (text : string) : M unit :=
  c <- pimpl ;;
  put {| fd := fd c; stream := stream c ++ text; modeStack := modeStack c;
         mode := mode c; cachedScreenWidth := cachedScreenWidth c |}.

Definition killLineTail : M unit := Console_csi "K".
Definition killLineHead : M unit := Console_csi "1K".
Definition killLine : M unit := Console_csi "2K".
Definition hideCursor : M unit := Console_csi "?25l".
Definition showCursor : M unit := Console_csi "?25h".
Definition saveHardwareCursor : M unit := Console_csi "s".
Definition restoreHardwareCursor : M unit := Console_csi "u".
Definition gotoX (x : Z) : M unit := Console_csi (decimal x ++ "G").
Definition gotoXY (x y : Z) : M unit :=
  Console_csi (decimal y ++ ";" ++ decimal x ++ "H").

(** The amounts are [unsigned]. *)
Definition cursorUp (amt : Z) : M unit :=
  Console_csi (decimal (unsigned_int amt) ++ "A").
Definition cursorDown (amt : Z) : M unit :=
  Console_csi (decimal (unsigned_int amt) ++ "B").
Definition cursorRight (amt : Z) : M unit :=
  Console_csi (decimal (unsigned_int amt) ++ "C").
Definition cursorLeft (amt : Z) : M unit :=
  Console_csi (decimal (unsigned_int amt) ++ "D").
Definition clearScreen : M unit := Console_csi "2J".

(** [Console::gotoY] (lines 353-358). *)
Definition gotoY (y : Z) : M unit :=
  cursorUp 1000000 ;;; cursorDown y.

(** The cursor and screen calls, to speak of all of them at once. *)
Inductive CursorCall : Type :=
| call_killLineTail
| call_killLineHead
| call_killLine
| call_hideCursor
| call_showCursor
| call_saveHardwareCursor
| call_restoreHardwareCursor
| call_gotoX (x : Z)
| call_gotoY (y : Z)
| call_gotoXY (x y : Z)
| call_cursorUp (amt : Z)
| call_cursorDown (amt : Z)
| call_cursorRight (amt : Z)
| call_cursorLeft (amt : Z)
| call_clearScreen.

Definition cursor_call (k : CursorCall) : M unit :=
  match k with
  | call_killLineTail => killLineTail
  | call_killLineHead => killLineHead
  | call_killLine => killLine
  | call_hideCursor => hideCursor
  | call_showCursor => showCursor
  | call_saveHardwareCursor => saveHardwareCursor
  | call_restoreHardwareCursor => restoreHardwareCursor
  | call_gotoX x => gotoX x
  | call_gotoY y => gotoY y
  | call_gotoXY x y => gotoXY x y
  | call_cursorUp amt => cursorUp amt
  | call_cursorDown amt => cursorDown amt
  | call_cursorRight amt => cursorRight amt
  | call_cursorLeft amt => cursorLeft amt
  | call_clearScreen => clearScreen
  end.

(** Whether a text holds the escape character. *)
Fixpoint has_ESC (text : string) : bool :=
  match text with
  | EmptyString => false
  | String ch rest => Ascii.eqb ch ESC || has_ESC rest
  end.

Definition with_stream (c : Impl) (text : string) : Impl :=
  {| fd := fd c; stream := text; modeStack := modeStack c;
     mode := mode c; cachedScreenWidth := cachedScreenWidth c |}.

(** *** Theorems *)

Lemma has_ESC_append (a b : string) :
  has_ESC (a ++ b) = has_ESC a || has_ESC b.
Proof.
  induction a as [|x a IH]; simpl; [reflexivity|].
  rewrite IH, orb_assoc. reflexivity.
Qed.

Lemma has_ESC_string_of_uint (d : Decimal.uint) :
  has_ESC (DecimalString.NilEmpty.string_of_uint d) = false.
Proof.
  induction d; simpl; auto.
Qed.

Lemma has_ESC_decimal (z : Z) : has_ESC (decimal z) = false.
Proof.
  unfold decimal, DecimalString.NilZero.string_of_int,
    DecimalString.NilZero.string_of_uint.
  destruct (Z.to_int z) as [d|d]; destruct d;
    try reflexivity;
    try (apply (has_ESC_string_of_uint (Decimal.D0 d)));
    simpl; auto using has_ESC_string_of_uint.
Qed.

Lemma Console_csi_writes (text : string) (c : Impl) (os : OS) :
  Console_csi text c os = (Return tt, with_stream c (stream c ++ text), os).
Proof. reflexivity. Qed.

(** The text of each call: its parameters in decimal, row before column,
    and the final letter of its control function, with no control sequence
    introducer before them. *)
Definition cursor_text (k : CursorCall) : string :=
  match k with
  | call_killLineTail => "K"
  | call_killLineHead => "1K"
  | call_killLine => "2K"
  | call_hideCursor => "?25l"
  | call_showCursor => "?25h"
  | call_saveHardwareCursor => "s"
  | call_restoreHardwareCursor => "u"
  | call_gotoX x => decimal x ++ "G"
  | call_gotoY y => "1000000A" ++ decimal (y mod 2 ^ 32) ++ "B"
  | call_gotoXY x y => decimal y ++ ";" ++ decimal x ++ "H"
  | call_cursorUp amt => decimal (amt mod 2 ^ 32) ++ "A"
  | call_cursorDown amt => decimal (amt mod 2 ^ 32) ++ "B"
  | call_cursorRight amt => decimal (amt mod 2 ^ 32) ++ "C"
  | call_cursorLeft amt => decimal (amt mod 2 ^ 32) ++ "D"
  | call_clearScreen => "2J"
  end.

(** X26.  Each cursor or screen call returns, appends exactly its own text to
    the stream (its parameters in decimal and its final letter, an [unsigned]
    amount read modulo 2^32) and changes nothing else; [gotoY] appends the
    texts of [cursorUp( 1000000 )] and [cursorDown( y )] in that order.  The
    text is never empty and holds no escape character: [Console::csi()]
    returns the stream and sends no control sequence introducer. *)
Theorem cursor_calls_write_no_escape (k : CursorCall) (c : Impl) (os : OS) :
  cursor_call k c os
  = (Return tt, with_stream c (stream c ++ cursor_text k), os)
  /\ has_ESC (cursor_text k) = false
  /\ cursor_text k <> "".
Proof.
  split; [|split].
  - destruct k; cbn [cursor_call cursor_text]; try apply Console_csi_writes.
    unfold gotoY, cursorUp, cursorDown, bind.
    rewrite !Console_csi_writes. unfold with_stream. cbn [stream fd
      modeStack mode cachedScreenWidth].
    rewrite !string_append_assoc. reflexivity.
  - destruct k; cbn [cursor_text];
      rewrite ?has_ESC_append, ?has_ESC_decimal; reflexivity.
  - assert (L : forall a b : string, b <> "" -> a ++ b <> "").
    { intros [|x a] b Hb; simpl; [exact Hb | discriminate]. }
    destruct k; cbn [cursor_text]; try discriminate;
      repeat (apply L); discriminate.
Qed.

(** The texts of three calls. *)
Example cursor_texts :
  cursor_text (call_gotoXY 3 7) = "7;3H"
  /\ cursor_text (call_gotoY 5) = "1000000A5B"
  /\ cursor_text (call_cursorUp (-1)) = "4294967295A".
Proof. repeat split; reflexivity. Qed.

(** ** The colour variable (lines 155-173) *)

(** [split] of string_algorithms.h, which the sources at hand declare and
    do not define. *)
Variable split : string -> ascii -> list string.

(** [colorVariables()[ name ]= value]: the value of a key that is present
    is replaced. *)
Fixpoint assign (m : StyleMap) (s : Style) (v : SGR_String) : StyleMap :=
  match m with
  | [] => [(s, v)]
  | (k, x) :: rest =>
      if Style_eqb s k then (k, v) :: rest else (k, x) :: assign rest s v
  end.

(** The body of the [for] loop over the parts of the variable. *)
Fixpoint assign_color_variables (vars : list string) (m : StyleMap)
  : outcome unit * StyleMap :=
  match vars with
  | [] => (Return tt, m)
  | var :: rest =>
      match split var "="%char with
      | [name_; value] =>
          assign_color_variables rest
            (assign m {| name := name_ |} {| code := value |})
      | _ =>
          (Throw (runtime_error
                    ("Color environment variable parse error in: `"
                     ++ var ++ "`.")), m)
      end
  end.

(** The block [parse_environment_variable_for_color] of the
    initialiser. *)
Definition parse_environment_variable_for_color (m : StyleMap)
  : outcome unit * StyleMap :=
  match getenv colorsEnv with
  | Some contents => assign_color_variables (split contents ":"%char) m
  | None => (Return tt, m)
  end.

(** *** Theorems *)

Lemma find_style_assign_same (m : StyleMap) (s : Style) (v : SGR_String) :
  find_style (assign m s v) s = Some v.
Proof.
  induction m as [|[k x] rest IH]; simpl.
  - unfold Style_eqb. rewrite String.eqb_refl. reflexivity.
  - destruct (Style_eqb s k) eqn:E; simpl; rewrite E; auto.
Qed.

Lemma find_style_assign_other (m : StyleMap) (s t : Style)
                              (v : SGR_String) :
  Style_eqb t s = false ->
  find_style (assign m s v) t = find_style m t.
Proof.
  intros Hts. induction m as [|[k x] rest IH]; simpl.
  - rewrite Hts. reflexivity.
  - destruct (Style_eqb s k) eqn:E; simpl.
    + destruct (Style_eqb t k) eqn:E'; [|reflexivity].
      unfold Style_eqb in *. apply String.eqb_eq in E, E'.
      rewrite E', <- E, String.eqb_refl in Hts. discriminate.
    + destruct (Style_eqb t k); auto.
Qed.

(** A style that has a code keeps one through the rest of the variable:
    its own, or the value of a later part of the same name. *)
Lemma assign_color_variables_keeps (vars : list string) :
  forall (m m' : StyleMap) (name_ : string) (v : string),
    assign_color_variables vars m = (Return tt, m') ->
    find_style m {| name := name_ |} = Some {| code := v |} ->
    exists value,
      find_style m' {| name := name_ |} = Some {| code := value |}
      /\ (value = v
          \/ exists var, In var vars
                         /\ split var "="%char = [name_; value]).
Proof.
  induction vars as [|var rest IH]; intros m m' name_ v Hrun Hfind.
  - inversion Hrun; subst. exists v. auto.
  - simpl in Hrun.
    destruct (split var "="%char) as [|n0 [|v0 [|x l]]] eqn:Es;
      try discriminate.
    destruct (Style_eqb {| name := name_ |} {| name := n0 |}) eqn:E.
    + unfold Style_eqb in E. simpl in E. apply String.eqb_eq in E. subst n0.
      destruct (IH _ _ name_ v0 Hrun (find_style_assign_same _ _ _))
        as [value [Hv Hor]].
      exists value. split; [exact Hv|]. right.
      destruct Hor as [->|[var' [Hin Hs]]].
      * exists var. split; [left; reflexivity | exact Es].
      * exists var'. split; [right; exact Hin | exact Hs].
    + destruct (IH _ _ name_ v Hrun) as [value [Hv Hor]].
      * rewrite find_style_assign_other by exact E. exact Hfind.
      * exists value. split; [exact Hv|].
        destruct Hor as [->|[var' [Hin Hs]]]; [left; reflexivity|].
        right. exists var'. split; [right; exact Hin | exact Hs].
Qed.

Lemma assign_color_variables_registers (vars : list string) :
  forall (m m' : StyleMap) (var name_ v : string),
    assign_color_variables vars m = (Return tt, m') ->
    In var vars ->
    split var "="%char = [name_; v] ->
    exists value var',
      find_style m' {| name := name_ |} = Some {| code := value |}
      /\ In var' vars /\ split var' "="%char = [name_; value].
Proof.
  induction vars as [|var0 rest IH]; intros m m' var name_ v Hrun Hin Hs;
    [contradiction|].
  simpl in Hrun.
  destruct (split var0 "="%char) as [|n0 [|v0 [|x l]]] eqn:Es;
    try discriminate.
  destruct Hin as [->|Hin].
  - rewrite Hs in Es. inversion Es; subst n0 v0.
    destruct (assign_color_variables_keeps rest _ _ name_ v Hrun
                (find_style_assign_same _ _ _)) as [value [Hv Hor]].
    destruct Hor as [->|[var' [Hin' Hs']]].
    + exists v, var. repeat split; [exact Hv | left; reflexivity | exact Hs].
    + exists value, var'. repeat split; [exact Hv | right; exact Hin'
                                         | exact Hs'].
  - destruct (IH _ _ var name_ v Hrun Hin Hs) as [value [var' [Hv [Hi Hs']]]].
    exists value, var'. repeat split; [exact Hv | right; exact Hi | exact Hs'].
Qed.

(** X27.  A colour from the environment wins over the program's own.  When the
    colour variable was read without error, a style named in one of its
    parts keeps the value from the variable although [createStyle] is
    called for it later with another code: writing the style sends a value
    that a part of that name gives. *)
Theorem environment_colour_wins (m m' : StyleMap) (contents var name_ v : string)
        (sgr : SGR_String) (colorState : option ColorState) (os : OS)
        (os_ : string) :
  getenv colorsEnv = Some contents ->
  parse_environment_variable_for_color m = (Return tt, m') ->
  In var (split contents ":"%char) ->
  split var "="%char = [name_; v] ->
  name_ <> "reset" ->
  colorEnabled colorState os = true ->
  exists value var',
    In var' (split contents ":"%char)
    /\ split var' "="%char = [name_; value]
    /\ write_Style (snd (createStyle name_ sgr m')) colorState os os_
         {| name := name_ |}
       = os_ ++ String ESC EmptyString ++ value ++ "m".
Proof.
  intros Henv Hrun Hin Hs Hname Hcolor.
  unfold parse_environment_variable_for_color in Hrun. rewrite Henv in Hrun.
  destruct (assign_color_variables_registers _ _ _ var name_ v Hrun Hin Hs)
    as [value [var' [Hv [Hi Hs']]]].
  exists value, var'. split; [exact Hi|]. split; [exact Hs'|].
  unfold createStyle.
  destruct (String.eqb name_ "reset") eqn:E;
    [apply String.eqb_eq in E; contradiction|].
  cbn [snd]. unfold write_Style, contains.
  rewrite Hcolor, find_style_insert, Hv. cbn [andb code].
  unfold sendSGR, csi. cbn [code].
  rewrite !string_append_assoc. reflexivity.
Qed.

(** X28.  A part of the colour variable that [split] does not cut in two at the
    '=' stops the initialiser with a [std::runtime_error] that names the
    part. *)
Theorem malformed_color_variable_throws (front : list string) (var : string)
        (rest : list string) (m m1 : StyleMap) :
  assign_color_variables front m = (Return tt, m1) ->
  List.length (split var "="%char) <> 2%nat ->
  assign_color_variables (front ++ var :: rest) m
  = (Throw (runtime_error
              ("Color environment variable parse error in: `"
               ++ var ++ "`.")), m1).
Proof.
  revert m. induction front as [|var0 front IH]; intros m Hrun Hlen.
  - inversion Hrun; subst. simpl.
    destruct (split var "="%char) as [|n0 [|v0 [|x l]]]; try reflexivity.
    simpl in Hlen. contradiction.
  - simpl in *.
    destruct (split var0 "="%char) as [|n0 [|v0 [|x l]]];
      try discriminate.
    apply IH; assumption.
Qed.

End Console.

(** ** A run on a small system

    The system is one terminal on descriptor 1, known by its settings;
    every other descriptor is no tty. *)
Definition one_terminal_isatty (os : termios) (fd : Z) : Z :=
  if fd =? 1 then 1 else 0.

Definition one_terminal_ioctl (os : termios) (fd : Z) (ws : winsize)
  : Z * winsize :=
  if fd =? 1
  then (0, {| ws_row := 50; ws_col := 132; ws_xpixel := 0; ws_ypixel := 0 |})
  else (-1, ws).

Definition one_terminal_tcgetattr (os : termios) (fd : Z) (t : termios)
  : Z * termios :=
  if fd =? 1 then (0, os) else (-1, t).

Definition one_terminal_tcsetattr (os : termios) (fd : Z) (actions : Z)
                                  (t : termios) : Z * termios :=
  if fd =? 1 then (0, t) else (-1, os).

Definition zero_termios : termios :=
  {| c_iflag := 0; c_oflag := 0; c_cflag := 0; c_lflag := 0;
     c_cc := repeat 0 32 |}.

Definition zero_winsize : winsize :=
  {| ws_row := 0; ws_col := 0; ws_xpixel := 0; ws_ypixel := 0 |}.

Definition sane_termios : termios :=
  {| c_iflag := 1280; c_oflag := 5; c_cflag := 191; c_lflag := 35387;
     c_cc := repeat 0 32 |}.

Example getScreenSize_on_the_terminal :
  getScreenSize termios one_terminal_isatty one_terminal_ioctl zero_winsize
    (new_Impl 1) sane_termios
  = (Return {| rows := 50; columns := 132 |}, new_Impl 1, sane_termios).
Proof. reflexivity. Qed.

Example getScreenSize_on_a_file :
  getScreenSize termios one_terminal_isatty one_terminal_ioctl zero_winsize
    (new_Impl 3) sane_termios
  = (Return {| rows := 24; columns := 80 |}, new_Impl 3, sane_termios).
Proof. reflexivity. Qed.

Example setRaw_popTermMode_on_the_terminal :
  bind termios
    (setRaw termios one_terminal_tcgetattr one_terminal_tcsetattr
       linux_termios_h zero_termios)
    (fun _ => popTermMode termios one_terminal_tcsetattr linux_termios_h)
    (new_Impl 1) sane_termios
  = (Return tt, new_Impl 1, sane_termios).
Proof. reflexivity. Qed.


(** ** Runs of the further properties on the small system *)



(** An environment with the one variable that [colorEnabled] looks up. *)
Definition disable_color_set (variable : string) : option string :=
  if String.eqb variable "ALEPHA_DISABLE_COLOR_TEXT" then Some "1"
  else None.

Definition warning_style : Style := {| name := "warning" |}.
Definition red : SGR_String := {| code := "31" |}.

Lemma createStyle_then_write_witness :
  createStyle "reset" red []
  = (Throw (runtime_error "The `reset` style name is reserved."), [])
  /\ ("warning" <> "reset" ->
      colorEnabled termios one_terminal_isatty disable_color_set "ALEPHA"
        (Some always) sane_termios = true ->
      exists style,
        fst (createStyle "warning" red []) = Return style
        /\ name style = "warning"
        /\ write_Style termios one_terminal_isatty disable_color_set
             "ALEPHA" (snd (createStyle "warning" red [])) (Some always)
             sane_termios "text" style
           = "text" ++ String ESC EmptyString
             ++ code (match find_style [] {| name := "warning" |} with
                      | Some old => old
                      | None => red
                      end)
             ++ "m").
Proof.
  apply (createStyle_then_write termios one_terminal_isatty
           disable_color_set "ALEPHA" "warning" red [] (Some always)
           sane_termios "text").
Defined.

Lemma resetStyle_is_always_written_witness :
  write_resetStyle "text" = "text" ++ String ESC "m"
  /\ (colorEnabled termios one_terminal_isatty disable_color_set "ALEPHA"
        (Some never) sane_termios = false ->
      write_Style termios one_terminal_isatty disable_color_set "ALEPHA"
        [(warning_style, red)] (Some never) sane_termios "text"
        warning_style = "text"
      /\ write_resetStyle
           (write_Style termios one_terminal_isatty disable_color_set
              "ALEPHA" [(warning_style, red)] (Some never) sane_termios
              "text" warning_style)
         = "text" ++ String ESC "m").
Proof.
  apply (resetStyle_is_always_written termios one_terminal_isatty
           disable_color_set "ALEPHA" [(warning_style, red)] (Some never)
           sane_termios "text" warning_style).
Defined.

Lemma style_follows_the_disable_variable_witness :
  (disable_color_set (disableColorsEnv "ALEPHA") = None ->
   write_Style termios one_terminal_isatty disable_color_set "ALEPHA"
     [(warning_style, red)] None sane_termios "text" warning_style = "text")
  /\ (forall value,
         disable_color_set (disableColorsEnv "ALEPHA") = Some value ->
         write_Style termios one_terminal_isatty disable_color_set "ALEPHA"
           [(warning_style, red)] None sane_termios "text" warning_style
         = "text" ++ String ESC EmptyString ++ code red ++ "m").
Proof.
  apply (style_follows_the_disable_variable termios one_terminal_isatty
           disable_color_set "ALEPHA" [(warning_style, red)] sane_termios
           "text" warning_style red).
  reflexivity.
Defined.



(** An environment with the colour variable alone. *)
Definition colors_set (variable : string) : option string :=
  if String.eqb variable "ALEPHA_COLORS" then Some "warning=33:error=41"
  else None.

Lemma environment_colour_wins_witness :
  exists value var',
    In var' (string_algorithms.split_model "warning=33:error=41" ":"%char)
    /\ string_algorithms.split_model var' "="%char = ["warning"; value]
    /\ write_Style termios one_terminal_isatty colors_set "ALEPHA"
         (snd (createStyle "warning" red
                 [({| name := "warning" |}, {| code := "33" |});
                  ({| name := "error" |}, {| code := "41" |})]))
         (Some always) sane_termios "text" {| name := "warning" |}
       = "text" ++ String ESC EmptyString ++ value ++ "m".
Proof.
  apply (environment_colour_wins termios one_terminal_isatty colors_set
           "ALEPHA" string_algorithms.split_model []
           [({| name := "warning" |}, {| code := "33" |});
            ({| name := "error" |}, {| code := "41" |})]
           "warning=33:error=41" "warning=33" "warning" "33" red
           (Some always) sane_termios "text").
  - reflexivity.
  - reflexivity.
  - simpl. tauto.
  - reflexivity.
  - discriminate.
  - reflexivity.
Defined.

Lemma malformed_color_variable_throws_witness :
  assign_color_variables string_algorithms.split_model
    (["warning=33"] ++ "error" :: ["note=36"]) []
  = (Throw (runtime_error
              ("Color environment variable parse error in: `"
               ++ "error" ++ "`.")),
     [({| name := "warning" |}, {| code := "33" |})]).
Proof.
  apply (malformed_color_variable_throws string_algorithms.split_model
           ["warning=33"] "error" ["note=36"] []
           [({| name := "warning" |}, {| code := "33" |})]).
  - reflexivity.
  - vm_compute. discriminate.
Defined.

End console.
